(** * runserver.py: the start-up script of PokemonGo-Map

    A shallow embedding of the [__main__] block of [runserver.py]
    (lines 54-175): the parsing of the location argument, the binding of
    accounts to locations, the empty-locations abort, and the creation of
    the pause signal, of the search thread and of the control surface;
    and of the checks made while the module loads (lines 25-52).

    The script is sequential Python that mutates one list ([locations]),
    the objects that list holds, one [threading.Event], and that calls
    into collaborators ([logging], [pgoapi], [pogom]).  It is modelled in
    a state-and-exception monad over

    - a store of location objects and a store of [Event] flags, both
      addressed by reference, so that aliasing is visible;
    - the contents of the list object bound to [locations];
    - the chronological trace of calls made on the collaborators.

    Text is modelled as [string]s of code points below 256 (Latin-1),
    which is what a character of Rocq's [string] holds; text with other
    characters is outside the model.  [float(...)] of a decimal literal
    is modelled as the rational it denotes (binary rounding is not
    modelled). *)

From Equations Require Import Equations.
From Stdlib Require Import Ascii QArith.
From stdpp Require Import gmap strings list.

Local Open Scope string_scope.
Local Open Scope Z_scope.
Local Open Scope nat_scope.
Local Open Scope list_scope.

(** ** Text: [str.split] and the coordinate pattern *)

(** [s.split(sep)] for a one-character separator: every occurrence of
    [sep] ends a field, so the result always has at least one field. *)
Fixpoint split_on (sep : ascii) (s : string) : list string :=
  match s with
  | EmptyString => [EmptyString]
  | String c s' =>
      if Ascii.eqb c sep then EmptyString :: split_on sep s'
      else match split_on sep s' with
           | [] => [String c EmptyString]
           | f :: fs => String c f :: fs
           end
  end.

(** [\d] on code points below 256: the digits 0-9; the other decimal
    digits of Unicode all have code points above 255. *)
Definition is_digit (c : ascii) : bool :=
  let n := nat_of_ascii c in (48 <=? n) && (n <=? 57).

(** [\s] on code points below 256: space, [\t \n \v \f \r], the
    separators [\x1c]-[\x1f], the next-line character [\x85] and the
    no-break space [\xa0]. *)
Definition is_space (c : ascii) : bool :=
  let n := nat_of_ascii c in
  (n =? 32) || ((9 <=? n) && (n <=? 13)) || ((28 <=? n) && (n <=? 31)) ||
  (n =? 133) || (n =? 160).

Definition is_char (x : ascii) (c : ascii) : bool := Ascii.eqb c x.

Inductive quant := One | Opt | Plus.

(** The fragment of [re] syntax the script uses: character classes under
    a greedy quantifier, capture-group brackets, and the [$] anchor. *)
Inductive item :=
| Chars (q : quant) (cls : ascii -> bool)
| Open (g : nat)
| Close (g : nat)
| EndAnchor.

(** The state of one match attempt: the position reached, where each open
    group started, and the span of each closed group. *)
Record mstate := MState {
  pos : nat;
  opened : gmap nat nat;
  spans : gmap nat (nat * nat)
}.

Definition advance (m : mstate) : mstate :=
  MState (S (pos m)) (opened m) (spans m).

Definition open_group (g : nat) (m : mstate) : mstate :=
  MState (pos m) (<[g := pos m]> (opened m)) (spans m).

Definition close_group (g : nat) (m : mstate) : mstate :=
  match opened m !! g with
  | Some b => MState (pos m) (opened m) (<[g := (b, pos m)]> (spans m))
  | None => m
  end.

(** [$] (no MULTILINE flag): the end of the text, or just before a
    newline that ends the text. *)
Definition at_end (s : string) : bool :=
  match s with
  | EmptyString => true
  | String c EmptyString => Ascii.eqb c "010"%char
  | _ => false
  end.

(** Backtracking matcher, anchored at the start as [Pattern.match] is:
    a greedy quantifier takes as much as it can and gives back one
    character at a time when the rest of the pattern fails. *)
Fixpoint run (p : list item) : string -> mstate -> option mstate :=
  match p with
  | [] => fun _ m => Some m
  | Open g :: p' => fun s m => run p' s (open_group g m)
  | Close g :: p' => fun s m => run p' s (close_group g m)
  | EndAnchor :: p' => fun s m => if at_end s then run p' s m else None
  | Chars One cls :: p' => fun s m =>
      match s with
      | String c s' => if cls c then run p' s' (advance m) else None
      | EmptyString => None
      end
  | Chars Opt cls :: p' => fun s m =>
      match s with
      | String c s' =>
          if cls c then
            match run p' s' (advance m) with
            | Some r => Some r
            | None => run p' s m
            end
          else run p' s m
      | EmptyString => run p' s m
      end
  | Chars Plus cls :: p' =>
      let rest := run p' in
      let more :=
        fix more (s : string) (m : mstate) {struct s} : option mstate :=
          match s with
          | String c s' =>
              if cls c then
                match more s' (advance m) with
                | Some r => Some r
                | None => rest s m
                end
              else rest s m
          | EmptyString => rest s m
          end in
      fun s m =>
        match s with
        | String c s' => if cls c then more s' (advance m) else None
        | EmptyString => None
        end
  end.

(** [re.compile("^(-?\d+\.\d+),?\s?(-?\d+\.\d+)$")] (line 91); [^] is
    implied by [match]. *)
Definition number : list item :=
  [Chars Opt (is_char "-"); Chars Plus is_digit;
   Chars One (is_char "."); Chars Plus is_digit].

Definition prog : list item :=
  [Open 1] ++ number ++ [Close 1] ++
  [Chars Opt (is_char ","); Chars Opt is_space] ++
  [Open 2] ++ number ++ [Close 2] ++ [EndAnchor].

Definition group (s : string) (m : mstate) (g : nat) : string :=
  match spans m !! g with
  | Some (b, e) => String.substring b (e - b) s
  | None => EmptyString
  end.

(** [prog.match(location)] with [res.group(1)] and [res.group(2)]. *)
Definition prog_match (location : string) : option (string * string) :=
  match run prog location (MState 0 ∅ ∅) with
  | Some m => Some (group location m 1, group location m 2)
  | None => None
  end.

(** ** Numbers: [float] of a decimal literal *)

Definition digit_value (c : ascii) : Z := Z.of_nat (nat_of_ascii c - 48).

(** Reads [digits] [.] [digits]: the digits as one integer, and the
    number of them after the point. *)
Fixpoint read_decimal (s : string) (acc : Z) (frac : option nat)
  : option (Z * nat) :=
  match s with
  | EmptyString => match frac with Some k => Some (acc, k) | None => None end
  | String c s' =>
      if is_digit c then
        read_decimal s' (10 * acc + digit_value c)%Z (S <$> frac)
      else if Ascii.eqb c "."%char then
        match frac with
        | None => read_decimal s' acc (Some 0)
        | Some _ => None
        end
      else None
  end.

(** [float(text)] for a text of the form sign, digits, point, digits
    with a digit on one side of the point at least, which covers what
    the pattern's groups can hold: [n] read without the point, over 10
    to the number [k] of digits after it.  [None] stands for every
    other text; of those, Python rejects some with [ValueError] and
    accepts others (exponents, [inf], surrounding blanks), which the
    script never passes. *)
Definition float (text : string) : option Q :=
  let '(neg, body) :=
    match text with
    | String "-"%char r => (true, r)
    | _ => (false, text)
    end in
  if String.eqb body "." then None
  else
    match read_decimal body 0%Z None with
    | Some (n, k) =>
        Some ((if neg then - n else n)%Z # Z.to_pos (10 ^ Z.of_nat k))
    | None => None
    end.

(** ** Data model *)

Inductive level := DEBUG | INFO | WARNING | ERROR | CRITICAL.

(** The two functions a search thread can run (line 22). *)
Inductive target := search_overseer_thread | fake_search_loop.

(** Python exceptions that can leave the script. *)
Inductive exn :=
| NameError (name : string)
| IndexError (msg : string)
| ValueError (msg : string)
| AttributeError (msg : string)
| ExternalError (callee : string)
| SystemExit (code : option Z).

(** The status the process ends with: [sys.exit()] without an argument
    is [SystemExit(None)], which is status 0; an uncaught exception is
    status 1. *)
Definition exit_status (e : exn) : Z :=
  match e with
  | SystemExit None => 0
  | SystemExit (Some c) => c
  | _ => 1
  end.

(** Values stored in the [config] dictionary. *)
Inductive cval := CBool (b : bool) | CStr (s : string).

(** What the script reads from outside: the encryption library path, the
    file system, the geocoder ([None]: the lookup raises), the Flask
    application's root path, and how many times [is_alive()] answers
    True before the search thread is found dead.  (With a thread that
    never dies a headless run never ends; such a run has no final state
    and is not among the runs described here.) *)
Record World := {
  get_encryption_lib_path : string;
  static_dist_exists : bool;
  db_isfile : bool;
  root_path : string;
  get_pos_by_name : string -> option (Q * Q * Q);
  alive_polls : nat
}.

(** The character of code 34, and the message of line 70, which holds it
    twice. *)
Definition double_quote : string := String "034" EmptyString.

Definition missing_assets_message : string :=
  Eval vm_compute in
    ("Missing front-end assets (static/dist) -- please run " +:+
     double_quote +:+ "npm install && npm run build" +:+ double_quote +:+
     " before starting the server").

(** [threading.Event] objects live in a store of flags, addressed by
    reference: [set], [clear] and [is_set] on the flag at [e]. *)
Definition flag_set (e : nat) (flags : list bool) : list bool :=
  <[e := true]> flags.

Definition flag_clear (e : nat) (flags : list bool) : list bool :=
  <[e := false]> flags.

Definition flag_is_set (e : nat) (flags : list bool) : option bool :=
  flags !! e.

(** ** Names *)

(** Names bound by the [import] statements of lines 4-23 and 43-44. *)
Definition imported_names : list string :=
  ["os"; "sys"; "shutil"; "logging"; "time"; "re"; "StrictVersion";
   "Thread"; "Event"; "Queue"; "CORS"; "init_cache_busting"; "config";
   "Pogom"; "get_args"; "insert_mock_data"; "get_encryption_lib_path";
   "search_overseer_thread"; "fake_search_loop"; "init_database";
   "create_tables"; "drop_tables"].

(** Names the script assigns before or in the loop over the locations,
    and the names every module has. *)
Definition assigned_names : list string :=
  ["pgoapi_version"; "log"; "oldpgoapiPath"; "pgoapi"; "util";
   "encryption_lib_path"; "args"; "prog"; "parsed_locations"; "locations";
   "location"; "res"; "position"; "__name__"; "__doc__"; "__package__";
   "__loader__"; "__spec__"; "__file__"; "__builtins__"].

(** The built-in functions and constants of Python 3. *)
Definition builtin_names : list string :=
  ["abs"; "aiter"; "all"; "anext"; "any"; "ascii"; "bin"; "bool";
   "breakpoint"; "bytearray"; "bytes"; "callable"; "chr"; "classmethod";
   "compile"; "complex"; "delattr"; "dict"; "dir"; "divmod"; "enumerate";
   "eval"; "exec"; "filter"; "float"; "format"; "frozenset"; "getattr";
   "globals"; "hasattr"; "hash"; "help"; "hex"; "id"; "input"; "int";
   "isinstance"; "issubclass"; "iter"; "len"; "list"; "locals"; "map";
   "max"; "memoryview"; "min"; "next"; "object"; "oct"; "open"; "ord";
   "pow"; "print"; "property"; "range"; "repr"; "reversed"; "round"; "set";
   "setattr"; "slice"; "sorted"; "staticmethod"; "str"; "sum"; "super";
   "tuple"; "type"; "vars"; "zip"; "__import__"; "NotImplemented";
   "Ellipsis"; "__debug__"; "copyright"; "credits"; "license"; "exit";
   "quit"].

(** The built-in exception classes. *)
Definition builtin_exceptions : list string :=
  ["BaseException"; "Exception"; "GeneratorExit"; "KeyboardInterrupt";
   "SystemExit"; "StopIteration"; "StopAsyncIteration"; "ArithmeticError";
   "AssertionError"; "AttributeError"; "BufferError"; "EOFError";
   "FloatingPointError"; "ImportError"; "ModuleNotFoundError";
   "IndexError"; "KeyError"; "LookupError"; "MemoryError"; "NameError";
   "UnboundLocalError"; "NotImplementedError"; "OSError";
   "EnvironmentError"; "IOError"; "OverflowError"; "RecursionError";
   "ReferenceError"; "RuntimeError"; "SyntaxError"; "IndentationError";
   "TabError"; "SystemError"; "TypeError"; "UnicodeError";
   "UnicodeDecodeError"; "UnicodeEncodeError"; "UnicodeTranslateError";
   "ValueError"; "ZeroDivisionError"; "BlockingIOError"; "BrokenPipeError";
   "ChildProcessError"; "ConnectionError"; "ConnectionAbortedError";
   "ConnectionRefusedError"; "ConnectionResetError"; "FileExistsError";
   "FileNotFoundError"; "InterruptedError"; "IsADirectoryError";
   "NotADirectoryError"; "PermissionError"; "ProcessLookupError";
   "TimeoutError"; "Warning"; "BytesWarning"; "DeprecationWarning";
   "FutureWarning"; "ImportWarning"; "PendingDeprecationWarning";
   "ResourceWarning"; "RuntimeWarning"; "SyntaxWarning"; "UnicodeWarning";
   "UserWarning"].

(** What a name can resolve to when the loop of lines 94-103 runs. *)
Definition module_globals : gset string :=
  list_to_set
    (imported_names ++ assigned_names ++ builtin_names ++ builtin_exceptions).

Section Script.

(** An account is an opaque handle: the script only passes it on. *)
Context {Account : Type}.

(** The result of [get_args()]. *)
Record Args := {
  debug : bool;
  no_server : bool;
  no_pokemon : bool;
  no_pokestops : bool;
  no_gyms : bool;
  location : string;
  accounts : list Account;
  locale : string;
  china : bool;
  clear_db : bool;
  db_type : string;
  db : string;
  only_server : bool;
  mock : bool;
  cors : bool;
  gmaps_key : string;
  host : string;
  port : Z
}.

(** Modelled from the spec: the class [PogoWorker] is neither defined
    nor imported by [runserver.py].  The spec's Location has a latitude,
    a longitude, an altitude, and holds zero or one bound Account. *)
Record PogoWorker := {
  latitude : Q;
  longitude : Q;
  altitude : Q;
  account : option Account
}.

(** Arguments a thread is created with.  [VLocations] is the list object
    [locations], shown with the contents it has at that moment; [VEvent]
    is a reference into the store of Event flags. *)
Inductive value :=
| VArgs
| VLocations (ls : list nat)
| VEvent (e : nat)
| VStr (s : string).

Record Thread := {
  thread_target : target;
  thread_args : list value;
  daemon : bool;
  thread_name : option string
}.

(** Calls the script makes on its collaborators, in the order made. *)
Inductive event :=
| Log (lvl : level) (msg : string)
| SetLevel (logger : string) (lvl : level)
| GetPosByName (query : string)
| AddAccount (loc : nat) (a : Account)
| NewPogom
| InitDatabase
| DropTables
| OsRemove (path : string)
| CreateTables
| SetLocations (ls : list nat)
| NewEvent (e : nat)
| EventClear (e : nat)
| InsertMockData (loc : nat)
| NewThread (tg : target) (args : list value)
| ThreadStart (t : Thread)
| Cors
| InitCacheBusting
| SetSearchControl (e : nat)
| PollIsAlive (t : Thread)
| AppRun (dbg : bool) (h : string) (p : Z)
| Sleep (seconds : nat).

Record state := State {
  heap : list PogoWorker;
  signals : list bool;
  locations : list nat;
  config : gmap string cval;
  trace : list event
}.

Definition initial_state : state := State [] [] [] ∅ [].

(** ** The monad: state, and exceptions that keep the state reached *)

Inductive result (A : Type) :=
| Ok (a : A) (st : state)
| Raise (e : exn) (st : state).
Arguments Ok {A}.
Arguments Raise {A}.

Definition M (A : Type) : Type := state -> result A.

Definition ret {A} (a : A) : M A := fun st => Ok a st.

Definition bind {A B} (m : M A) (k : A -> M B) : M B :=
  fun st =>
    match m st with
    | Ok a st' => k a st'
    | Raise e st' => Raise e st'
    end.

Definition raise {A} (e : exn) : M A := fun st => Raise e st.

Definition final {A} (r : result A) : state :=
  match r with Ok _ st => st | Raise _ st => st end.

Notation "'let*' x ':=' m 'in' k" := (bind m (fun x => k))
  (at level 10, x pattern, m at level 100, k at level 200).
Notation "m '>>' k" := (bind m (fun _ => k))
  (at level 90, right associativity).

Definition when (b : bool) (m : M unit) : M unit := if b then m else ret tt.

Fixpoint for_ {A} (l : list A) (body : A -> M unit) : M unit :=
  match l with
  | [] => ret tt
  | x :: l' => body x >> for_ l' body
  end.

(** [for i, x in enumerate(l)], counting from [i]. *)
Fixpoint for_enumerate {A} (i : nat) (l : list A) (body : nat -> A -> M unit)
  : M unit :=
  match l with
  | [] => ret tt
  | x :: l' => body i x >> for_enumerate (S i) l' body
  end.

(** ** Primitive operations *)

Definition emit (e : event) : M unit := fun st =>
  Ok tt (State (heap st) (signals st) (locations st) (config st)
           (trace st ++ [e])).

Definition log (lvl : level) (msg : string) : M unit := emit (Log lvl msg).

Definition sys_exit {A} (code : option Z) : M A := raise (SystemExit code).

(** Evaluating a global name: [NameError] unless the name is bound. *)
Definition lookup_global (globals : gset string) (name : string) : M unit :=
  if decide (name ∈ globals) then ret tt else raise (NameError name).

Definition config_set (k : string) (v : cval) : M unit := fun st =>
  Ok tt (State (heap st) (signals st) (locations st) (<[k := v]> (config st))
           (trace st)).

Definition get_locations : M (list nat) := fun st => Ok (locations st) st.

Definition set_locations (ls : list nat) : M unit := fun st =>
  Ok tt (State (heap st) (signals st) ls (config st) (trace st)).

(** [locations.append(position)]. *)
Definition locations_append (position : nat) : M unit := fun st =>
  set_locations (locations st ++ [position]) st.

(** [locations.pop()]: removes and returns the last element. *)
Definition locations_pop : M nat := fun st =>
  match last (locations st) with
  | Some x => Ok x (State (heap st) (signals st) (removelast (locations st))
                      (config st) (trace st))
  | None => Raise (IndexError "pop from empty list") st
  end.

(** [locations[i]] for an index counted from 0. *)
Definition locations_get (i : nat) : M nat := fun st =>
  match locations st !! i with
  | Some x => Ok x st
  | None => Raise (IndexError "list index out of range") st
  end.

Definition to_float (text : string) : M Q :=
  match float text with
  | Some q => ret q
  | None => raise (ValueError "could not convert string to float")
  end.

(** [PogoWorker(lat, lng, alt)]: a new object, with no account yet. *)
Definition new_PogoWorker (lat lng alt : Q) : M nat := fun st =>
  Ok (length (heap st))
     (State (heap st ++ [Build_PogoWorker lat lng alt None]) (signals st)
        (locations st) (config st) (trace st)).

Definition bound_to (a : Account) (w : PogoWorker) : PogoWorker :=
  Build_PogoWorker (latitude w) (longitude w) (altitude w) (Some a).

(** Modelled from the spec: [add_account] is a method of the missing
    class; it binds the account to the location object, in place. *)
Definition add_account (loc : nat) (a : Account) : M unit := fun st =>
  Ok tt (State (alter (bound_to a) loc (heap st)) (signals st) (locations st)
           (config st) (trace st ++ [AddAccount loc a])).

Definition call_get_pos_by_name (w : World) (query : string) : M (Q * Q * Q) :=
  emit (GetPosByName query) >>
  match get_pos_by_name w query with
  | Some p => ret p
  | None => raise (ExternalError "get_pos_by_name")
  end.

(** [Event()]: a new flag, initially false. *)
Definition new_Event : M nat := fun st =>
  Ok (length (signals st))
     (State (heap st) (signals st ++ [false]) (locations st) (config st)
        (trace st ++ [NewEvent (length (signals st))])).

(** [e.clear()]. *)
Definition event_clear (e : nat) : M unit := fun st =>
  Ok tt (State (heap st) (flag_clear e (signals st)) (locations st)
           (config st) (trace st ++ [EventClear e])).

Definition new_Thread (tg : target) (args : list value) : M Thread :=
  emit (NewThread tg args) >> ret (Build_Thread tg args false None).

(** ** The script *)

(** Keeps the equation between a value and the case it is matched to. *)
Definition inspect {A : Type} (x : A) : {y : A | x = y} := exist _ x eq_refl.

(** Lines 108-109: [while len(args.accounts) < len(locations):
    locations.pop()].  Every round shortens [locations]. *)
Equations? drop_extra_locations (args : Args) (st : state) : result unit
  by wf (length (locations st)) lt :=
drop_extra_locations args st
  with decide (length (accounts args) < length (locations st)) => {
  | right _ => Ok tt st
  | left _ with inspect (locations_pop st) => {
    | exist _ (Ok _ st') Hpop => drop_extra_locations args st'
    | exist _ (Raise e st') _ => Raise e st' } }.
Proof.
  unfold locations_pop in Hpop.
  destruct (last (locations st)) eqn:Hlast; [|discriminate].
  injection Hpop as _ <-. cbn.
  destruct (locations st) as [|x xs]; [discriminate|].
  rewrite removelast_firstn_len, length_take. cbn. lia.
Defined.

(** Lines 105-112: add accounts to locations. *)
Definition add_accounts_to_locations (args : Args) : M unit :=
  (let* locs := get_locations in
   if decide (length (accounts args) < length locs) then
     log WARNING
       "Provided fever accounts than locations. Removing extra locations.." >>
     drop_extra_locations args
   else ret tt) >>
  for_enumerate 0 (accounts args) (fun i account =>
    let* loc := locations_get i in
    add_account loc account).

(** Lines 94-103: one round of the loop over [parsed_locations].  The
    callee [PogoWorker] is evaluated before its arguments. *)
Definition parse_location (globals : gset string) (w : World) (args : Args)
  : string -> M unit :=
  let args_location := location args in
  fun location =>
  let* position :=
    match prog_match location with
    | Some (lat, lng) =>
        log DEBUG "Using coordinates from CLI directly" >>
        lookup_global globals "PogoWorker" >>
        let* lat := to_float lat in
        let* lng := to_float lng in
        new_PogoWorker lat lng 0
    | None =>
        log DEBUG "Looking up coordinates in API" >>
        lookup_global globals "PogoWorker" >>
        let* p := call_get_pos_by_name w args_location in
        new_PogoWorker p.1.1 p.1.2 p.2
    end in
  locations_append position.

(** Lines 90-103. *)
Definition parse_locations (globals : gset string) (w : World) (args : Args)
  : M unit :=
  let parsed_locations := split_on "|" (location args) in
  set_locations [] >>
  for_ parsed_locations (parse_location globals w args).

(** Lines 55-88: the checks and the logging set-up before the location
    argument is read. *)
Definition prologue (w : World) (args : Args) : M unit :=
  when (String.eqb (get_encryption_lib_path w) "") (sys_exit (Some 1%Z)) >>
  emit (SetLevel "root" (if debug args then DEBUG else INFO)) >>
  when (negb (no_server args))
    (when (negb (static_dist_exists w))
       (log CRITICAL missing_assets_message >>
        sys_exit None)) >>
  emit (SetLevel "peewee" INFO) >>
  emit (SetLevel "requests" WARNING) >>
  emit (SetLevel "pgoapi.pgoapi" WARNING) >>
  emit (SetLevel "pgoapi.rpc_api" INFO) >>
  emit (SetLevel "werkzeug" ERROR) >>
  config_set "parse_pokemon" (CBool (negb (no_pokemon args))) >>
  config_set "parse_pokestops" (CBool (negb (no_pokestops args))) >>
  config_set "parse_gyms" (CBool (negb (no_gyms args))) >>
  when (debug args)
    (emit (SetLevel "requests" DEBUG) >>
     emit (SetLevel "pgoapi" DEBUG) >>
     emit (SetLevel "rpc_api" DEBUG)).

(** Lines 144-157: the search thread, unless only the server runs.  The
    result is what the name [search_thread] is bound to afterwards. *)
Definition start_search (w : World) (args : Args) (pause_bit : nat)
  : M (option Thread) :=
  if negb (only_server args) then
    let* search_thread :=
      if negb (mock args) then
        log DEBUG "Starting a real search thread" >>
        let* locs := get_locations in
        new_Thread search_overseer_thread
          [VArgs; VLocations locs; VEvent pause_bit;
           VStr (get_encryption_lib_path w)]
      else
        log DEBUG "Starting a fake search thread" >>
        let* first := locations_get 0 in
        emit (InsertMockData first) >>
        new_Thread fake_search_loop [] in
    let search_thread :=
      Build_Thread (thread_target search_thread) (thread_args search_thread)
        true (Some "search_thread") in
    emit (ThreadStart search_thread) >>
    ret (Some search_thread)
  else ret None.

(** Lines 114-116: no location left, no start. *)
Definition check_locations : M unit :=
  let* locs := get_locations in
  when (bool_decide (locs = []))
    (log ERROR "Could not initialize locations, aborting" >>
     sys_exit None).

(** Lines 118-126. *)
Definition announce (args : Args) : M unit :=
  when (no_pokemon args) (log INFO "Parsing of Pokemon disabled") >>
  when (no_pokestops args) (log INFO "Parsing of Pokestops disabled") >>
  when (no_gyms args) (log INFO "Parsing of Gyms disabled") >>
  config_set "LOCALE" (CStr (locale args)) >>
  config_set "CHINA" (CBool (china args)).

(** Lines 128-136. *)
Definition open_database (w : World) (args : Args) : M unit :=
  emit NewPogom >>
  emit InitDatabase >>
  when (clear_db args)
    (log INFO "Clearing database" >>
     if String.eqb (db_type args) "mysql" then emit DropTables
     else when (db_isfile w) (emit (OsRemove (db args)))) >>
  emit CreateTables.

(** Lines 172-173: [while search_thread.is_alive(): time.sleep(60)],
    where [is_alive()] answers True [n] times and then False. *)
Fixpoint wait_for_thread (n : nat) (t : Thread) : M unit :=
  match n with
  | 0 => emit (PollIsAlive t)
  | S n' => emit (PollIsAlive t) >> emit (Sleep 60) >> wait_for_thread n' t
  end.

(** Lines 159-175: [search_thread] is unbound when only the server was
    asked for. *)
Definition serve (w : World) (args : Args) (pause_bit : nat)
    (search_thread : option Thread) : M unit :=
  when (cors args) (emit Cors) >>
  emit InitCacheBusting >>
  emit (SetSearchControl pause_bit) >>
  config_set "ROOT_PATH" (CStr (root_path w)) >>
  config_set "GMAPS_KEY" (CStr (gmaps_key args)) >>
  if no_server args then
    match search_thread with
    | Some t => wait_for_thread (alive_polls w) t
    | None => raise (NameError "search_thread")
    end
  else emit (AppRun (debug args) (host args) (port args)).

(** Lines 114-175: from the empty-locations abort to the server. *)
Definition startup (w : World) (args : Args) : M unit :=
  check_locations >>
  announce args >>
  open_database w args >>
  (let* locs := get_locations in emit (SetLocations locs)) >>
  let* pause_bit := new_Event in
  event_clear pause_bit >>
  let* search_thread := start_search w args pause_bit in
  serve w args pause_bit search_thread.

(** The [__main__] block, run with the given global names bound. *)
Definition main (globals : gset string) (w : World) (args : Args) : M unit :=
  prologue w args >>
  parse_locations globals w args >>
  add_accounts_to_locations args >>
  startup w args.

(** ** Reading a run *)

(** The heap after [add_account] has been called on the pairs of [ls]
    and [accs], position by position. *)
Definition bind_heap (ls : list nat) (accs : list Account)
    (h : list PogoWorker) : list PogoWorker :=
  foldl (fun h p => alter (bound_to p.2) p.1 h) h (zip ls accs).

(** The calls of [prologue] when it does not exit. *)
Definition prologue_events (args : Args) : list event :=
  [SetLevel "root" (if debug args then DEBUG else INFO);
   SetLevel "peewee" INFO; SetLevel "requests" WARNING;
   SetLevel "pgoapi.pgoapi" WARNING; SetLevel "pgoapi.rpc_api" INFO;
   SetLevel "werkzeug" ERROR] ++
  (if debug args then
     [SetLevel "requests" DEBUG; SetLevel "pgoapi" DEBUG;
      SetLevel "rpc_api" DEBUG]
   else []).

Definition prologue_config (args : Args) (c : gmap string cval)
  : gmap string cval :=
  <["parse_gyms" := CBool (negb (no_gyms args))]>
    (<["parse_pokestops" := CBool (negb (no_pokestops args))]>
       (<["parse_pokemon" := CBool (negb (no_pokemon args))]> c)).

(** The log line of the branch an element takes. *)
Definition branch_log (location : string) : event :=
  Log DEBUG match prog_match location with
            | Some _ => "Using coordinates from CLI directly"
            | None => "Looking up coordinates in API"
            end.

(** The warning of line 107. *)
Definition binding_warning : event :=
  Log WARNING
    "Provided fever accounts than locations. Removing extra locations..".

(** The location objects a call hands to a collaborator. *)
Definition locations_of_value (v : value) : list nat :=
  match v with VLocations ls => ls | _ => [] end.

Definition locations_given (e : event) : list nat :=
  match e with
  | AddAccount loc _ | InsertMockData loc => [loc]
  | SetLocations ls => ls
  | NewThread _ targs => concat (map locations_of_value targs)
  | ThreadStart t | PollIsAlive t =>
      concat (map locations_of_value (thread_args t))
  | _ => []
  end.

(** The signals a call hands to a collaborator: to the control surface,
    or to a thread among its arguments. *)
Definition signals_of_value (v : value) : list nat :=
  match v with VEvent e => [e] | _ => [] end.

Definition signals_given (e : event) : list nat :=
  match e with
  | SetSearchControl e' => [e']
  | NewThread _ targs => concat (map signals_of_value targs)
  | ThreadStart t | PollIsAlive t =>
      concat (map signals_of_value (thread_args t))
  | _ => []
  end.

(** The calls each block of [startup] makes, as lists. *)
Definition announce_events (args : Args) : list event :=
  (if no_pokemon args then [Log INFO "Parsing of Pokemon disabled"] else []) ++
  (if no_pokestops args then [Log INFO "Parsing of Pokestops disabled"]
   else []) ++
  (if no_gyms args then [Log INFO "Parsing of Gyms disabled"] else []).

Definition database_events (w : World) (args : Args) : list event :=
  [NewPogom; InitDatabase] ++
  (if clear_db args then
     Log INFO "Clearing database" ::
     (if String.eqb (db_type args) "mysql" then [DropTables]
      else if db_isfile w then [OsRemove (db args)] else [])
   else []) ++
  [CreateTables].

(** The thread that is started: the target and arguments it was made
    with, and the attributes set at lines 155-156. *)
Definition started (tg : target) (targs : list value) : Thread :=
  Build_Thread tg targs true (Some "search_thread").

Definition overseer_args (w : World) (ls : list nat) (e : nat) : list value :=
  [VArgs; VLocations ls; VEvent e; VStr (get_encryption_lib_path w)].

Definition search_events (w : World) (args : Args) (ls : list nat) (e : nat)
  : list event :=
  if only_server args then []
  else if mock args then
    Log DEBUG "Starting a fake search thread" ::
    match ls with
    | first :: _ =>
        [InsertMockData first; NewThread fake_search_loop [];
         ThreadStart (started fake_search_loop [])]
    | [] => []
    end
  else
    [Log DEBUG "Starting a real search thread";
     NewThread search_overseer_thread (overseer_args w ls e);
     ThreadStart (started search_overseer_thread (overseer_args w ls e))].

Definition search_thread_of (w : World) (args : Args) (ls : list nat) (e : nat)
  : option Thread :=
  if only_server args then None
  else if mock args then Some (started fake_search_loop [])
  else Some (started search_overseer_thread (overseer_args w ls e)).

(** The calls of the wait loop: [n] polls answered True, each followed
    by the sleep, and the poll answered False. *)
Fixpoint wait_events (n : nat) (t : Thread) : list event :=
  match n with
  | 0 => [PollIsAlive t]
  | S n' => PollIsAlive t :: Sleep 60 :: wait_events n' t
  end.

Definition serve_events (w : World) (args : Args) (e : nat)
    (t : option Thread) : list event :=
  (if cors args then [Cors] else []) ++
  [InitCacheBusting; SetSearchControl e] ++
  (if no_server args then
     match t with Some t => wait_events (alive_polls w) t | None => [] end
   else [AppRun (debug args) (host args) (port args)]).

Definition startup_events (w : World) (args : Args) (ls : list nat) (e : nat)
  : list event :=
  announce_events args ++ database_events w args ++
  [SetLocations ls; NewEvent e; EventClear e] ++
  search_events w args ls e ++
  serve_events w args e (search_thread_of w args ls e).

Definition startup_config (w : World) (args : Args) (c : gmap string cval)
  : gmap string cval :=
  <["GMAPS_KEY" := CStr (gmaps_key args)]>
    (<["ROOT_PATH" := CStr (root_path w)]>
       (<["CHINA" := CBool (china args)]>
          (<["LOCALE" := CStr (locale args)]> c))).

(** Events through which a location gets an account, the pause signal
    is made, or a thread is made or started. *)
Definition starts_work (e : event) : bool :=
  match e with
  | AddAccount _ _ | NewEvent _ | EventClear _ | InsertMockData _
  | NewThread _ _ | ThreadStart _ | SetSearchControl _ => true
  | _ => false
  end.

Definition is_insert_mock_data (e : event) : bool :=
  match e with InsertMockData _ => true | _ => false end.

Definition is_thread_event (e : event) : bool :=
  match e with NewThread _ _ | ThreadStart _ => true | _ => false end.

Definition is_new_event (e : event) : bool :=
  match e with NewEvent _ => true | _ => false end.

Definition is_thread_start (e : event) : bool :=
  match e with ThreadStart _ => true | _ => false end.

(** Calls that make an [Event] or write its flag. *)
Definition touches_flag (e : event) : bool :=
  match e with NewEvent _ | EventClear _ => true | _ => false end.

(** Calls made by the binding step: the warning, and [add_account]. *)
Definition is_binding_event (e : event) : bool :=
  match e with
  | Log WARNING _ | AddAccount _ _ => true
  | _ => false
  end.

Definition count_insert_mock_data (tr : list event) : nat :=
  length (List.filter is_insert_mock_data tr).

Definition exception_of {A} (r : result A) : option exn :=
  match r with Ok _ _ => None | Raise e _ => Some e end.

End Script.

Arguments Ok {Account A}.
Arguments Raise {Account A}.

(** ** Sample runs

    Accounts are named by strings here.  The sample namespace is the
    module's own with [PogoWorker] bound in addition, as it would be had
    the class been imported. *)

Definition sample_world : World := {|
  get_encryption_lib_path := "libencrypt.so";
  static_dist_exists := true;
  db_isfile := false;
  root_path := "/srv/pogom";
  get_pos_by_name := fun _ => Some (488566 # 10000, 23522 # 10000, 0)%Q;
  alive_polls := 2
|}.

Definition sample_args (loc : string) (accs : list string)
    (server_only fake headless : bool) : @Args string := {|
  debug := false;
  no_server := headless;
  no_pokemon := false;
  no_pokestops := false;
  no_gyms := false;
  location := loc;
  accounts := accs;
  locale := "en";
  china := false;
  clear_db := false;
  db_type := "sqlite";
  db := "pogom.db";
  only_server := server_only;
  mock := fake;
  cors := false;
  gmaps_key := "key";
  host := "127.0.0.1";
  port := 5000
|}.

Definition globals_with_PogoWorker : gset string :=
  {["PogoWorker"]} ∪ module_globals.

(** Two location objects, both in [locations], no account bound. *)
Definition two_locations : @state string :=
  State [Build_PogoWorker 1 2 0 None; Build_PogoWorker 3 4 0 None]
    [] [0; 1] ∅ [].

(** One location object, in [locations]. *)
Definition one_location : @state string :=
  State [Build_PogoWorker 1 2 0 None] [] [0] ∅ [].

(** Whole runs of the script, from the initial state, for the argument
    [-l 1.0,2.0]: with two accounts, with no account, with one account
    and a real search, with a mock search, and the same with only the
    server asked for. *)
Definition run_with_spare_account : result unit :=
  main globals_with_PogoWorker sample_world
    (sample_args "1.0,2.0" ["alice"; "bob"] false false false) initial_state.

Definition run_without_accounts : result unit :=
  main globals_with_PogoWorker sample_world
    (sample_args "1.0,2.0" [] false false false) initial_state.

Definition real_run : result unit :=
  main globals_with_PogoWorker sample_world
    (sample_args "1.0,2.0" ["alice"] false false false) initial_state.

Definition mock_run : result unit :=
  main globals_with_PogoWorker sample_world
    (sample_args "1.0,2.0" ["alice"] false true false) initial_state.

Definition mock_server_only_run : result unit :=
  main globals_with_PogoWorker sample_world
    (sample_args "1.0,2.0" ["alice"] true true false) initial_state.


Definition unbuilt_world : World := {|
  get_encryption_lib_path := "libencrypt.so";
  static_dist_exists := false;
  db_isfile := false;
  root_path := "/srv/pogom";
  get_pos_by_name := fun _ => Some (488566 # 10000, 23522 # 10000, 0)%Q;
  alive_polls := 2
|}.

Definition world_without_library : World := {|
  get_encryption_lib_path := "";
  static_dist_exists := true;
  db_isfile := false;
  root_path := "/srv/pogom";
  get_pos_by_name := fun _ => Some (488566 # 10000, 23522 # 10000, 0)%Q;
  alive_polls := 2
|}.

(** Arguments with [--debug] and [--clear-db] on a MySQL database. *)
Definition debug_args : @Args string := {|
  debug := true;
  no_server := false;
  no_pokemon := false;
  no_pokestops := true;
  no_gyms := false;
  location := "1.0,2.0";
  accounts := ["alice"];
  locale := "en";
  china := false;
  clear_db := true;
  db_type := "mysql";
  db := "pogom.db";
  only_server := false;
  mock := false;
  cors := true;
  gmaps_key := "key";
  host := "127.0.0.1";
  port := 5000
|}.

(** * Reading text and runs *)

(** ** Decimal literals and separators *)

Fixpoint all_chars (cls : ascii -> bool) (s : string) : bool :=
  match s with
  | EmptyString => true
  | String c s' => cls c && all_chars cls s'
  end.

(** A text of the form [-?\d+\.\d+]: an optional sign, digits, a point,
    digits. *)
Inductive decimal : string -> Prop :=
| Decimal (neg : bool) (a b : string) :
    a <> "" -> b <> "" ->
    all_chars is_digit a = true -> all_chars is_digit b = true ->
    decimal ((if neg then "-" else "") +:+ a +:+ "." +:+ b).

(** A text of the form [,?\s?]. *)
Definition is_separator (s : string) : bool :=
  match s with
  | EmptyString => true
  | String c EmptyString => is_char "," c || is_space c
  | String c (String d EmptyString) => is_char "," c && is_space d
  | _ => false
  end.

Definition starts_with (cls : ascii -> bool) (s : string) : bool :=
  match s with
  | String c _ => cls c
  | EmptyString => false
  end.

Fixpoint count_char (c : ascii) (s : string) : nat :=
  match s with
  | EmptyString => 0
  | String d s' => (if Ascii.eqb d c then 1 else 0) + count_char c s'
  end.

(** [sep.join(fields)]. *)
Fixpoint join (sep : string) (fields : list string) : string :=
  match fields with
  | [] => ""
  | [f] => f
  | f :: fs => f +:+ sep +:+ join sep fs
  end.

(** ** The matcher, step by step *)

(** The match state [k] characters further on. *)
Definition shift (k : nat) (m : mstate) : mstate :=
  MState (k + pos m) (opened m) (spans m).

(** The loop of a [+] quantifier, after its first character: more
    characters of the class first, then the rest of the pattern. *)
Definition more_of (cls : ascii -> bool)
    (rest : string -> mstate -> option mstate)
  : string -> mstate -> option mstate :=
  fix more (s : string) (m : mstate) {struct s} : option mstate :=
    match s with
    | String c s' =>
        if cls c then
          match more s' (advance m) with
          | Some r => Some r
          | None => rest s m
          end
        else rest s m
    | EmptyString => rest s m
    end.

(** The match state after [prog] has matched [n1], [sep] and [n2], in
    this order, from the start of the text. *)
Definition matched (n1 sep n2 : string) : mstate :=
  close_group 2
    (shift (String.length n2)
       (open_group 2
          (shift (String.length sep)
             (close_group 1
                (shift (String.length n1)
                   (open_group 1 (MState 0 ∅ ∅))))))).

Section Reading.

Context {Account : Type}.

(** The level last set on the logger [name], if any was. *)
Definition logger_level (name : string) (tr : list (@event Account))
  : option level :=
  last (omap (fun e => match e with
                       | SetLevel logger lvl =>
                           if String.eqb logger name then Some lvl else None
                       | _ => None
                       end) tr).

Definition is_lookup (e : @event Account) : bool :=
  match e with GetPosByName _ => true | _ => false end.

(** Calls that delete stored data. *)
Definition is_destructive (e : @event Account) : bool :=
  match e with DropTables | OsRemove _ => true | _ => false end.

Definition is_create_tables (e : @event Account) : bool :=
  match e with CreateTables => true | _ => false end.

Definition is_app_run (e : @event Account) : bool :=
  match e with AppRun _ _ _ => true | _ => false end.

(** The calls one round of the loop of lines 94-103 makes when it
    succeeds. *)
Definition element_events (args : @Args Account) (element : string)
  : list (@event Account) :=
  match prog_match element with
  | Some _ => [Log DEBUG "Using coordinates from CLI directly"]
  | None => [Log DEBUG "Looking up coordinates in API";
             GetPosByName (location args)]
  end.

(** What [clear_db] makes the script delete. *)
Definition cleared (w : World) (args : @Args Account) : list (@event Account) :=
  if clear_db args then
    if String.eqb (db_type args) "mysql" then [DropTables]
    else if db_isfile w then [OsRemove (db args)] else []
  else [].

End Reading.

(** * Loading the module (lines 25-52) *)

(** ** [distutils.version.StrictVersion] *)

(** The numbers of a version, and its pre-release tag ([a] or [b] and a
    number) if it has one. *)
Record StrictVersion := {
  version : nat * nat * nat;
  prerelease : option (ascii * nat)
}.

(** The longest run of digits at the start of a text, read as a number,
    and the text after it. *)
Fixpoint read_nat (s : string) (acc : nat) : nat * string :=
  match s with
  | String c s' =>
      if is_digit c then read_nat s' (10 * acc + (nat_of_ascii c - 48))
      else (acc, s)
  | EmptyString => (acc, s)
  end.

(** [\d+]. *)
Definition read_digits1 (s : string) : option (nat * string) :=
  if starts_with is_digit s then Some (read_nat s 0) else None.

(** [StrictVersion(vstring)]: the pattern
    [^(\d+)\.(\d+)(\.(\d+))?([ab](\d+))?$]; a missing third number is 0;
    [None] is [ValueError]. *)
Definition parse_version (vstring : string) : option StrictVersion :=
  match read_digits1 vstring with
  | Some (major, String c1 s1) =>
      if Ascii.eqb c1 "." then
        match read_digits1 s1 with
        | Some (minor, s2) =>
            let '(patch, s3) :=
              match s2 with
              | String c2 r =>
                  if Ascii.eqb c2 "." then
                    match read_digits1 r with
                    | Some (p, s3) => (p, s3)
                    | None => (0, s2)
                    end
                  else (0, s2)
              | EmptyString => (0, s2)
              end in
            let '(pre, s4) :=
              match s3 with
              | String c3 r =>
                  if Ascii.eqb c3 "a" || Ascii.eqb c3 "b" then
                    match read_digits1 r with
                    | Some (k, s4) => (Some (c3, k), s4)
                    | None => (None, s3)
                    end
                  else (None, s3)
              | EmptyString => (None, s3)
              end in
            if at_end s4 then Some (Build_StrictVersion (major, minor, patch) pre)
            else None
        | None => None
        end
      else None
  | _ => None
  end.

(** Tuples of numbers compare from the left. *)
Definition numbers_ltb (a b : nat * nat * nat) : bool :=
  let '(a1, a2, a3) := a in
  let '(b1, b2, b3) := b in
  (a1 <? b1) || ((a1 =? b1) && ((a2 <? b2) || ((a2 =? b2) && (a3 <? b3)))).

Definition tag_ltb (p q : ascii * nat) : bool :=
  (nat_of_ascii p.1 <? nat_of_ascii q.1) ||
  ((nat_of_ascii p.1 =? nat_of_ascii q.1) && (p.2 <? q.2)).

(** [a < b] on versions: the numbers decide; with equal numbers a
    pre-release comes before the release, and two pre-releases compare
    by their tags. *)
Definition version_ltb (a b : StrictVersion) : bool :=
  if decide (version a = version b) then
    match prerelease a, prerelease b with
    | Some p, Some q => tag_ltb p q
    | Some _, None => true
    | None, _ => false
    end
  else numbers_ltb (version a) (version b).

(** ** The checks *)

(** Line 26. *)
Definition pgoapi_version : string := "1.1.7".

(** What loading finds: the directory of the script, whether the old
    [pogom/pgoapi] directory is there, and the [pgoapi] module: absent
    ([None]), or present with or without a [__version__]. *)
Record Install := {
  script_dirname : string;
  old_pgoapi_isdir : bool;
  pgoapi : option (option string)
}.

(** Calls made while loading; a log call keeps its format arguments. *)
Inductive load_event :=
| LoadLog (lvl : level) (msg : string) (fmt_args : list string)
| Rmtree (path : string).

(** [os.path.join(a, b)] for a relative [b]. *)
Definition path_join (a b : string) : string :=
  match a with
  | EmptyString => b
  | _ =>
      if String.eqb (String.substring (String.length a - 1) 1 a) "/"
      then a +:+ b else a +:+ "/" +:+ b
  end.

Definition oldpgoapiPath (inst : Install) : string :=
  path_join (script_dirname inst) "pogom/pgoapi".

(** Lines 35-39. *)
Definition remove_old_pgoapi (inst : Install) : list load_event :=
  if old_pgoapi_isdir inst then
    [LoadLog INFO "I found %s, but its no longer used. Going to remove it..."
       [oldpgoapiPath inst];
     Rmtree (oldpgoapiPath inst);
     LoadLog INFO "Done!" []]
  else [].

Definition not_installed : load_event :=
  LoadLog CRITICAL
    "It seems `pgoapi` is not installed. You must run pip install -r requirements.txt again"
    [].

Definition not_up_to_date : load_event :=
  LoadLog CRITICAL
    "It seems `pgoapi` is not up-to-date. You must run pip install -r requirements.txt again"
    [].

(** What [StrictVersion(vstring)] raises for a text that is not a
    version. *)
Definition invalid_version (vstring : string) : exn :=
  ValueError ("invalid version number '" +:+ vstring +:+ "'").

(** Lines 41-52: the calls made, and the exception that ends loading,
    if one does.  The installed version is parsed before the required
    one; [StrictVersion] does not parse an empty text at all, and the
    comparison then finds no [version] attribute. *)
Definition check_pgoapi (inst : Install) : list load_event * option exn :=
  match pgoapi inst with
  | None => ([not_installed], Some (SystemExit (Some 1%Z)))
  | Some None => ([not_up_to_date], Some (SystemExit (Some 1%Z)))
  | Some (Some installed) =>
      if String.eqb installed "" then
        ([], Some (AttributeError
                     "'StrictVersion' object has no attribute 'version'"))
      else
        match parse_version installed with
        | None => ([], Some (invalid_version installed))
        | Some v =>
            match parse_version pgoapi_version with
            | None => ([], Some (invalid_version pgoapi_version))
            | Some required =>
                if version_ltb v required
                then ([not_up_to_date], Some (SystemExit (Some 1%Z)))
                else ([], None)
            end
        end
  end.

(** Lines 32-52. *)
Definition load_module (inst : Install) : list load_event * option exn :=
  let '(evs, e) := check_pgoapi inst in
  (remove_old_pgoapi inst ++ evs, e).

(** An installation with the old directory still there and a
    pre-release of the required [pgoapi]. *)
Definition sample_install : Install := {|
  script_dirname := "/srv/pogom";
  old_pgoapi_isdir := true;
  pgoapi := Some (Some "1.1.7b2")
|}.

(** * Properties *)

Section Properties.

Context {Account : Type}.
Implicit Types (args : @Args Account) (st : @state Account).
Implicit Types (accs : list Account) (ls : list nat).

(** ** The monad *)

Lemma bind_Ok {A B} (m : M A) (k : A -> M B) st a st' :
  m st = Ok a st' -> bind m k st = k a st'.
Proof. unfold bind. now intros ->. Qed.

Lemma bind_Raise {A B} (m : M A) (k : A -> M B) st e st' :
  m st = Raise e st' -> bind m k st = Raise e st'.
Proof. unfold bind. now intros ->. Qed.

Lemma state_eta st :
  State (heap st) (signals st) (locations st) (config st) (trace st) = st.
Proof. now destruct st. Qed.

(** ** Text *)

Lemma split_on_nonempty sep s : split_on sep s <> [].
Proof.
  destruct s as [|c s]; cbn; [discriminate|].
  destruct (Ascii.eqb c sep); [discriminate|].
  destruct (split_on sep s); discriminate.
Qed.

(** ** Binding accounts to locations *)

(** The [while] loop of lines 108-109 ends, and leaves the first
    [len(args.accounts)] elements of [locations]. *)
Lemma drop_extra_locations_take args st :
  drop_extra_locations args st =
  Ok tt (State (heap st) (signals st)
           (take (length (accounts args)) (locations st))
           (config st) (trace st)).
Proof.
  funelim (drop_extra_locations args st).
  - rewrite take_ge by lia. now rewrite state_eta.
  - rewrite H. clear H H0 Heq Heqcall. unfold locations_pop in Hpop.
    destruct (last (locations st)); [|discriminate].
    injection Hpop as _ <-. cbn.
    now rewrite firstn_removelast by lia.
  - clear H Heq Heqcall. unfold locations_pop in e1.
    destruct (locations st) as [|x xs] eqn:E; [cbn in l; lia|].
    destruct (last (x :: xs)) eqn:El; [discriminate|].
    apply last_None in El. discriminate.
Qed.

(** The [for] loop of lines 111-112, started at index [i]: it binds the
    accounts to the locations from [i] on, in order, and raises
    [IndexError] at the first account that has no location. *)
Lemma bind_loop_eq accs : forall i st,
  for_enumerate i accs
    (fun i account => bind (locations_get i)
                        (fun loc => add_account loc account)) st =
  (if decide (length accs <= length (locations st) - i)
   then Ok tt else Raise (IndexError "list index out of range"))
    (State (bind_heap (drop i (locations st)) accs (heap st)) (signals st)
       (locations st) (config st)
       (trace st ++ zip_with AddAccount (drop i (locations st)) accs)).
Proof.
  induction accs as [|a accs IH]; intros i st.
  - cbn. rewrite decide_True by lia.
    unfold bind_heap, ret. rewrite !zip_with_nil_r. cbn.
    now rewrite app_nil_r, state_eta.
  - cbn [for_enumerate]. unfold bind at 1. unfold bind at 1.
    unfold locations_get.
    destruct (locations st !! i) as [loc|] eqn:Hi.
    + apply lookup_lt_Some in Hi as Hlt.
      unfold add_account at 1. rewrite IH. cbn.
      rewrite (drop_S _ _ _ Hi). cbn. rewrite <- app_assoc. cbn.
      destruct (decide (length accs <= length (locations st) - S i));
        [rewrite decide_True by lia|rewrite decide_False by lia];
        reflexivity.
    + apply lookup_ge_None in Hi.
      rewrite decide_False by (cbn; lia).
      rewrite drop_ge by lia. cbn. unfold bind_heap. cbn.
      now rewrite app_nil_r, state_eta.
Qed.

(** Lines 105-112 as one equation: what is returned or raised, and the
    state reached. *)
Lemma add_accounts_to_locations_eq args st :
  add_accounts_to_locations args st =
  (if decide (length (accounts args) <= length (locations st))
   then Ok tt else Raise (IndexError "list index out of range"))
    (State (bind_heap (locations st) (accounts args) (heap st)) (signals st)
       (take (length (accounts args)) (locations st)) (config st)
       (trace st ++
        (if decide (length (accounts args) < length (locations st))
         then [binding_warning] else []) ++
        zip_with AddAccount (locations st) (accounts args))).
Proof.
  unfold add_accounts_to_locations. unfold bind at 1. unfold bind at 1.
  unfold get_locations at 1.
  destruct (decide (length (accounts args) < length (locations st))) as [Hlt|Hge].
  - unfold bind at 1. unfold log, emit at 1.
    rewrite drop_extra_locations_take. cbn [locations trace heap signals config].
    rewrite bind_loop_eq. cbn [locations trace heap signals config].
    rewrite length_take, drop_0.
    rewrite decide_True by lia. rewrite decide_True by lia.
    unfold bind_heap. rewrite !zip_with_take_l.
    now rewrite <- app_assoc.
  - unfold ret. rewrite bind_loop_eq. rewrite drop_0, Nat.sub_0_r. cbn.
    now rewrite take_ge by lia.
Qed.

(** ** Start-up *)

Lemma bind_bind {A B C} (m : M A) (k : A -> M B) (k' : B -> M C) st :
  bind (bind m k) k' st = bind m (fun x => bind (k x) k') st.
Proof. unfold bind. now destruct (m st). Qed.

Lemma bind_ret {A B} (a : A) (k : A -> M B) st : bind (ret a) k st = k a st.
Proof. reflexivity. Qed.

Lemma bind_raise {A B} e (k : A -> M B) st :
  bind (raise e) k st = Raise e st.
Proof. reflexivity. Qed.

Lemma bind_emit {B} e (k : unit -> M B) st :
  bind (emit e) k st =
  k tt (State (heap st) (signals st) (locations st) (config st)
          (trace st ++ [e])).
Proof. reflexivity. Qed.

Lemma bind_config_set {B} key v (k : unit -> M B) st :
  bind (config_set key v) k st =
  k tt (State (heap st) (signals st) (locations st)
          (<[key := v]> (config st)) (trace st)).
Proof. reflexivity. Qed.

Lemma bind_set_locations {B} ls (k : unit -> M B) st :
  bind (set_locations ls) k st =
  k tt (State (heap st) (signals st) ls (config st) (trace st)).
Proof. reflexivity. Qed.

Lemma bind_get_locations {B} (k : list nat -> M B) st :
  bind get_locations k st = k (locations st) st.
Proof. reflexivity. Qed.

(** Runs a block one statement at a time, and puts the trace in normal
    form. *)
Ltac run_step :=
  first [ rewrite bind_bind | rewrite bind_ret | rewrite bind_raise
        | rewrite bind_emit | rewrite bind_config_set
        | rewrite bind_get_locations | rewrite bind_set_locations ];
  cbn [heap signals locations config trace].

Ltac run_block :=
  unfold log, sys_exit; cbn [when negb]; repeat run_step;
  unfold ret, emit, raise, config_set, get_locations;
  cbn [heap signals locations config trace];
  rewrite <- ?app_assoc; cbn [app]; rewrite ?app_nil_r.

Lemma check_locations_eq st :
  locations st <> [] -> check_locations st = Ok tt st.
Proof.
  intros H. unfold check_locations. run_block.
  now rewrite bool_decide_eq_false_2.
Qed.

Lemma check_locations_abort st :
  locations st = [] ->
  check_locations st =
  Raise (SystemExit None)
    (State (heap st) (signals st) (locations st) (config st)
       (trace st ++ [Log ERROR "Could not initialize locations, aborting"])).
Proof.
  intros H. unfold check_locations. run_block.
  now rewrite bool_decide_eq_true_2.
Qed.

Lemma announce_eq args st :
  announce args st =
  Ok tt (State (heap st) (signals st) (locations st)
           (<["CHINA" := CBool (china args)]>
              (<["LOCALE" := CStr (locale args)]> (config st)))
           (trace st ++ announce_events args)).
Proof.
  unfold announce, announce_events.
  destruct (no_pokemon args), (no_pokestops args), (no_gyms args);
    run_block; reflexivity.
Qed.

Lemma open_database_eq w args st :
  open_database w args st =
  Ok tt (State (heap st) (signals st) (locations st) (config st)
           (trace st ++ database_events w args)).
Proof.
  unfold open_database, database_events.
  destruct (clear_db args), (String.eqb (db_type args) "mysql"), (db_isfile w);
    run_block; reflexivity.
Qed.

Lemma start_search_eq w args e st :
  locations st <> [] ->
  start_search w args e st =
  Ok (search_thread_of w args (locations st) e)
     (State (heap st) (signals st) (locations st) (config st)
        (trace st ++ search_events w args (locations st) e)).
Proof.
  destruct st as [h sg [|first ls] c tr]; [done|intros _].
  unfold start_search, search_events, search_thread_of, locations_get.
  destruct (only_server args), (mock args); run_block; cbn;
    rewrite <- ?app_assoc, ?app_nil_r; reflexivity.
Qed.

(** The wait loop ends with the poll answered False. *)
Lemma wait_for_thread_eq n t : forall st,
  wait_for_thread n t st =
  Ok tt (State (heap st) (signals st) (locations st) (config st)
           (trace st ++ wait_events n t)).
Proof.
  induction n as [|n IH]; intros st; cbn [wait_for_thread wait_events].
  - reflexivity.
  - rewrite !bind_emit, IH. cbn [heap signals locations config trace].
    now rewrite <- !app_assoc.
Qed.

(** A property of a poll and of the sleep holds all through the wait
    loop. *)
Lemma Forall_wait_events (P : @event Account -> Prop) n t :
  P (PollIsAlive t) -> P (Sleep 60) -> Forall P (wait_events n t).
Proof.
  intros Hpoll Hsleep. induction n as [|n IH]; cbn; repeat constructor; done.
Qed.

Lemma serve_eq w args e t st :
  serve w args e t st =
  (if no_server args && negb (bool_decide (is_Some t))
   then Raise (NameError "search_thread") else Ok tt)
    (State (heap st) (signals st) (locations st)
       (<["GMAPS_KEY" := CStr (gmaps_key args)]>
          (<["ROOT_PATH" := CStr (root_path w)]> (config st)))
       (trace st ++ serve_events w args e t)).
Proof.
  unfold serve, serve_events.
  destruct (cors args), (no_server args), t; run_block;
    rewrite ?wait_for_thread_eq; cbn [heap signals locations config trace];
    rewrite <- ?app_assoc; reflexivity.
Qed.

Lemma flag_clear_new (flags : list bool) :
  flag_clear (length flags) (flags ++ [false]) = flags ++ [false].
Proof.
  unfold flag_clear. rewrite insert_app_r_alt by lia.
  now rewrite Nat.sub_diag.
Qed.

(** Lines 114-175 as one equation, when a location is left. *)
Lemma startup_eq w args st :
  locations st <> [] ->
  startup w args st =
  (if no_server args && only_server args
   then Raise (NameError "search_thread") else Ok tt)
    (State (heap st) (signals st ++ [false]) (locations st)
       (startup_config w args (config st))
       (trace st ++
        startup_events w args (locations st) (length (signals st)))).
Proof.
  intros H. unfold startup.
  erewrite bind_Ok by (now apply check_locations_eq).
  erewrite bind_Ok by apply announce_eq.
  erewrite bind_Ok by apply open_database_eq.
  unfold bind at 1 2. unfold get_locations, emit at 1.
  cbn [heap signals locations config trace].
  unfold bind at 1. unfold new_Event.
  cbn [heap signals locations config trace].
  unfold bind at 1. unfold event_clear.
  cbn [heap signals locations config trace].
  rewrite flag_clear_new.
  erewrite bind_Ok by (now apply start_search_eq).
  rewrite serve_eq. cbn [heap signals locations config trace].
  unfold startup_events, startup_config.
  rewrite <- !app_assoc. cbn [app].
  unfold search_thread_of.
  now destruct (no_server args), (only_server args), (mock args).
Qed.

(** ** The heap after binding *)

Lemma bind_heap_length ls accs : forall h : list (@PogoWorker Account),
  length (bind_heap ls accs h) = length h.
Proof.
  unfold bind_heap. generalize (zip ls accs) as ps.
  induction ps as [|p ps IH]; intros h; cbn; [done|].
  now rewrite IH, length_alter.
Qed.

(** Objects that are not among the bound locations are not touched. *)
Lemma bind_heap_lookup_other ls accs loc :
  forall h : list (@PogoWorker Account),
  loc ∉ take (length accs) ls ->
  bind_heap ls accs h !! loc = h !! loc.
Proof.
  unfold bind_heap. revert accs.
  induction ls as [|l ls IH]; intros [|a accs] h Hnot; cbn; try done.
  cbn in Hnot. apply not_elem_of_cons in Hnot as [Hne Hnot].
  rewrite IH by done. now apply list_lookup_alter_ne.
Qed.

(** Without aliasing, the object at position [i] gets account [i]. *)
Lemma bind_heap_lookup_bound ls accs :
  forall (h : list (@PogoWorker Account)) i loc a,
  NoDup ls -> ls !! i = Some loc -> accs !! i = Some a ->
  bind_heap ls accs h !! loc = bound_to a <$> h !! loc.
Proof.
  unfold bind_heap. revert accs.
  induction ls as [|l ls IH]; intros [|a' accs] h i loc a Hnd Hl Ha;
    try done.
  apply NoDup_cons in Hnd as [Hnotin Hnd]. destruct i as [|i]; cbn in *.
  - injection Hl as ->. injection Ha as ->.
    change (bind_heap ls accs (alter (bound_to a) loc h) !! loc = 
            bound_to a <$> h !! loc).
    rewrite bind_heap_lookup_other.
    + apply list_lookup_alter_eq.
    + intros Hin. apply Hnotin. now apply elem_of_take in Hin as (j & ?%list_elem_of_lookup_2 & _).
  - rewrite (IH accs _ i loc a) by done.
    rewrite list_lookup_alter_ne; [done|].
    intros ->. apply Hnotin. now apply list_elem_of_lookup_2 in Hl.
Qed.

(** ** Before the locations *)

Lemma prologue_eq w args st :
  get_encryption_lib_path w <> "" ->
  no_server args = true \/ static_dist_exists w = true ->
  prologue w args st =
  Ok tt (State (heap st) (signals st) (locations st)
           (prologue_config args (config st))
           (trace st ++ prologue_events args)).
Proof.
  intros Hpath Hassets. unfold prologue, prologue_events, prologue_config.
  apply String.eqb_neq in Hpath. rewrite Hpath.
  destruct (debug args);
    (destruct Hassets as [-> | ->];
     [|destruct (no_server args)]); run_block; reflexivity.
Qed.

Lemma PogoWorker_unbound : "PogoWorker" ∉ module_globals.
Proof.
  intros H. apply (bool_decide_pack _) in H. vm_compute in H. exact H.
Qed.

(** With [PogoWorker] unbound, a round of the loop ends at the call,
    for a coordinate pair and for a place name alike. *)
Lemma parse_location_unbound globals w args location st :
  "PogoWorker" ∉ globals ->
  parse_location globals w args location st =
  Raise (NameError "PogoWorker")
    (State (heap st) (signals st) (locations st) (config st)
       (trace st ++ [branch_log location])).
Proof.
  intros H. unfold parse_location, branch_log, lookup_global.
  rewrite decide_False by done.
  destruct (prog_match location) as [[lat lng]|]; run_block; reflexivity.
Qed.

Lemma prologue_events_quiet args :
  Forall (fun e => starts_work e = false) (prologue_events args).
Proof. unfold prologue_events. destruct (debug args); repeat constructor. Qed.

(** C2: every round of the loop over the parsed locations evaluates the
    name [PogoWorker], which the module never binds; so the script, once
    past its first checks, raises [NameError] in the first round: no
    location object exists, no account is bound, no pause signal is
    made and no thread is made or started. *)
Theorem main_raises_NameError w args st :
  get_encryption_lib_path w <> "" ->
  no_server args = true \/ static_dist_exists w = true ->
  (forall location st1, exists st2,
     parse_location module_globals w args location st1 =
     Raise (NameError "PogoWorker") st2) /\
  exists st' evs,
    main module_globals w args st = Raise (NameError "PogoWorker") st' /\
    heap st' = heap st /\ signals st' = signals st /\ locations st' = [] /\
    trace st' = trace st ++ evs /\
    Forall (fun e => starts_work e = false) evs.
Proof.
  intros Hpath Hassets. split.
  - intros location st1. eexists.
    apply parse_location_unbound, PogoWorker_unbound.
  - unfold main.
    erewrite bind_Ok by (now apply prologue_eq).
    unfold parse_locations.
    destruct (split_on "|" (location args)) as [|first rest] eqn:E;
      [now apply split_on_nonempty in E|].
    cbn [for_]. repeat run_step.
    erewrite bind_Raise
      by (apply parse_location_unbound, PogoWorker_unbound).
    cbn [heap signals locations config trace].
    eexists _, (prologue_events args ++ [branch_log first]).
    split; [reflexivity|]. cbn [heap signals locations trace].
    repeat split; try done.
    + now rewrite <- app_assoc.
    + apply Forall_app. split; [apply prologue_events_quiet|].
      now repeat constructor.
Qed.

(** ** Looking up a place name *)

(** A round of the loop only ever looks up the whole argument. *)
Lemma parse_location_queries globals w args element st :
  exists evs,
    trace (final (parse_location globals w args element st)) =
    trace st ++ evs /\
    forall query, GetPosByName query ∈ evs -> query = location args.
Proof.
  unfold parse_location, lookup_global, call_get_pos_by_name, to_float.
  destruct (prog_match element) as [[lat lng]|];
    destruct (decide ("PogoWorker" ∈ globals));
    [destruct (float lat); [destruct (float lng)|]| |
     destruct (get_pos_by_name w (location args))|];
    run_block; cbn;
    (eexists; split; [reflexivity|]); intros query Hq;
    repeat (apply elem_of_cons in Hq as [Hq|Hq];
            [first [discriminate | now injection Hq]|]);
    now apply elem_of_nil in Hq.
Qed.

Lemma parse_loop_queries globals w args locs : forall st,
  exists evs,
    trace (final (for_ locs (parse_location globals w args) st)) =
    trace st ++ evs /\
    forall q, GetPosByName q ∈ evs -> q = location args.
Proof.
  induction locs as [|x locs IH]; intros st.
  - exists []. split; [now rewrite app_nil_r|]. intros q Hq.
    now apply elem_of_nil in Hq.
  - cbn [for_]. unfold bind.
    destruct (parse_location_queries globals w args x st) as (evs1 & Ht & Hq1).
    destruct (parse_location globals w args x st) as [[] st1|e st1];
      cbn in Ht.
    + destruct (IH st1) as (evs2 & Ht2 & Hq2).
      exists (evs1 ++ evs2). rewrite Ht2, Ht, <- app_assoc. split; [done|].
      intros q [Hq|Hq]%elem_of_app; auto.
    + exists evs1. now split.
Qed.

(** C9: for an element of the location list that is not a coordinate
    pair, the geocoder is asked for the whole, unsplit argument
    [args.location], not for the element; the new location object gets
    the position found for the whole argument, whatever the element is.
    Across the whole loop, no other text is ever looked up.  (The
    first part needs [PogoWorker] to be bound, which the module itself
    does not do.) *)
Theorem lookup_uses_whole_argument globals w args element st p :
  "PogoWorker" ∈ globals ->
  prog_match element = None ->
  get_pos_by_name w (location args) = Some p ->
  parse_location globals w args element st =
  Ok tt (State (heap st ++ [Build_PogoWorker p.1.1 p.1.2 p.2 None])
           (signals st) (locations st ++ [length (heap st)]) (config st)
           (trace st ++ [Log DEBUG "Looking up coordinates in API";
                         GetPosByName (location args)])) /\
  forall st0, exists evs,
    trace (final (parse_locations globals w args st0)) = trace st0 ++ evs /\
    forall query, GetPosByName query ∈ evs -> query = location args.
Proof.
  intros Hbound Hno Hpos. split.
  - unfold parse_location, lookup_global, call_get_pos_by_name.
    rewrite Hno, Hpos, decide_True by done.
    run_block. unfold bind, new_PogoWorker, locations_append, set_locations.
    cbn [heap signals locations config trace]. reflexivity.
  - intros st0. unfold parse_locations. rewrite bind_set_locations.
    destruct (parse_loop_queries globals w args
                (split_on "|" (location args))
                (State (heap st0) (signals st0) [] (config st0) (trace st0)))
      as (evs & Ht & Hq).
    exists evs. now split.
Qed.

(** ** What start-up hands on *)

(** Proves [Forall P l] for a list [l] written out, element by
    element. *)
Ltac each_event tac :=
  repeat (apply Forall_cons_2; [cbv beta; tac|]);
  first [ apply Forall_nil_2
        | apply Forall_wait_events; cbv beta; tac ].

Ltac by_evaluation := reflexivity.

Ltac given_in_locations :=
  let loc := fresh "loc" in
  let H := fresh "H" in
  intros loc H; cbn in H; set_solver.

Lemma startup_events_given w args ls e :
  Forall (fun ev => forall loc, loc ∈ locations_given ev -> loc ∈ ls)
    (startup_events w args ls e).
Proof.
  unfold startup_events, announce_events, database_events, search_events,
    serve_events, search_thread_of, started, overseer_args.
  repeat apply Forall_app_2;
    repeat match goal with
           | |- context [if ?b then _ else _] => destruct b
           end;
    try destruct ls; each_event given_in_locations.
Qed.

(** Whatever start-up hands to a collaborator is in [locations] then. *)
Lemma startup_gives_locations w args st :
  exists evs,
    trace (final (startup w args st)) = trace st ++ evs /\
    Forall (fun ev => forall loc,
              loc ∈ locations_given ev -> loc ∈ locations st) evs.
Proof.
  destruct (decide (locations st = [])) as [Hnil|Hne].
  - unfold startup. erewrite bind_Raise by (now apply check_locations_abort).
    eexists. split; [reflexivity|]. each_event given_in_locations.
  - rewrite startup_eq by done. eexists. split.
    + now destruct (no_server args && only_server args).
    + apply startup_events_given.
Qed.

(** ** Claims about the binding step *)

Lemma binding_events_only ls accs (warn : bool) :
  Forall (fun ev => is_binding_event ev = true)
    ((if warn then [@binding_warning Account] else []) ++
     zip_with AddAccount ls accs).
Proof.
  apply Forall_app_2; [destruct warn; repeat constructor|].
  revert accs. induction ls as [|l ls IH]; intros [|a accs]; cbn;
    repeat constructor. apply IH.
Qed.

(** C4: when fewer accounts than locations are given, exactly the
    trailing locations beyond the number of accounts are dropped: the
    list keeps its first [len(accounts)] elements in order, a warning is
    logged, [add_account] is called on the kept locations only, the
    dropped objects are left as they were, and nothing start-up later
    hands to the database, the mock source or a thread is a dropped
    location. *)
Theorem fewer_accounts_drop_trailing_locations args st :
  length (accounts args) < length (locations st) ->
  NoDup (locations st) ->
  exists st',
    add_accounts_to_locations args st = Ok tt st' /\
    locations st' = take (length (accounts args)) (locations st) /\
    trace st' =
      trace st ++
      ([binding_warning] ++
       zip_with AddAccount (locations st') (accounts args)) /\
    (forall loc, loc ∈ drop (length (accounts args)) (locations st) ->
       (loc ∉ locations st') /\ heap st' !! loc = heap st !! loc) /\
    (forall w, exists evs,
       trace (final (startup w args st')) = trace st' ++ evs /\
       Forall (fun ev => forall loc,
                 loc ∈ locations_given ev -> loc ∈ locations st') evs).
Proof.
  intros Hlt Hnd. rewrite add_accounts_to_locations_eq.
  rewrite decide_True by lia. rewrite decide_True by done.
  eexists. split; [reflexivity|]. cbn [heap signals locations config trace].
  assert (Hdrop : forall loc,
            loc ∈ drop (length (accounts args)) (locations st) ->
            loc ∉ take (length (accounts args)) (locations st)).
  { intros loc Hin Hin'.
    rewrite <- (take_drop (length (accounts args)) (locations st)) in Hnd.
    apply NoDup_app in Hnd as (_ & Hdisj & _). now apply (Hdisj loc). }
  repeat split.
  - now rewrite zip_with_take_l.
  - now apply Hdrop.
  - apply bind_heap_lookup_other. now apply Hdrop.
  - intros w. apply startup_gives_locations.
Qed.

(** C5, as the code has it: binding is not pure, it works in place.  It
    cuts the list [locations] down to its first [len(accounts)]
    elements and updates each kept location object by [add_account];
    everything else is left as it was: the objects outside the kept
    prefix, the pause signals and the configuration; and the only calls
    it makes are the warning and [add_account]. *)
Theorem binding_mutates_in_place args st :
  NoDup (locations st) ->
  let n := length (accounts args) in
  let st' := final (add_accounts_to_locations args st) in
  locations st' = take n (locations st) /\
  (forall i loc a,
     locations st !! i = Some loc -> accounts args !! i = Some a ->
     heap st' !! loc = bound_to a <$> heap st !! loc) /\
  (forall loc, loc ∉ take n (locations st) ->
     heap st' !! loc = heap st !! loc) /\
  length (heap st') = length (heap st) /\
  signals st' = signals st /\
  config st' = config st /\
  exists evs, trace st' = trace st ++ evs /\
              Forall (fun ev => is_binding_event ev = true) evs.
Proof.
  intros Hnd n st'. subst n st'. rewrite add_accounts_to_locations_eq.
  destruct (decide (length (accounts args) <= length (locations st)));
    cbn [final heap signals locations config trace];
    (repeat split;
     [ intros i loc a Hl Ha; now apply (bind_heap_lookup_bound _ _ _ i)
     | intros loc Hnot; now apply bind_heap_lookup_other
     | apply bind_heap_length
     | eexists; split; [reflexivity|];
       destruct (decide (length (accounts args) < length (locations st)));
       [apply (binding_events_only _ _ true)
       |apply (binding_events_only _ _ false)] ]).
Qed.

(** ** Claims about start-up *)

(** The state start-up ends in, whether it returns or stops at the
    unbound [search_thread]. *)
Lemma startup_final w args st :
  locations st <> [] ->
  final (startup w args st) =
  State (heap st) (signals st ++ [false]) (locations st)
    (startup_config w args (config st))
    (trace st ++ startup_events w args (locations st) (length (signals st))).
Proof.
  intros H. rewrite startup_eq by done.
  now destruct (no_server args && only_server args).
Qed.

(** Splits [Forall] over the blocks of a start-up trace, settles the
    flags, and checks the events one by one. *)
Ltac each_startup_event tac :=
  unfold announce_events, database_events, serve_events;
  repeat apply Forall_app_2;
  repeat match goal with
         | |- context [if ?b then _ else _] => destruct b
         end;
  each_event tac.


Ltac same_control :=
  let e2 := fresh "e2" in
  let He2 := fresh "He2" in
  intros e2 He2; first [discriminate | now injection He2].

Lemma filter_none {A} (f : A -> bool) (l : list A) :
  Forall (fun x => f x = false) l -> List.filter f l = [].
Proof.
  induction 1 as [|x l Hx _ IH]; cbn; [done|]. now rewrite Hx.
Qed.

(** Settles, for one call, that every signal it hands on is the one
    named. *)
Ltac the_signal :=
  let e' := fresh "e'" in
  let H := fresh "H" in
  intros e' H; cbn in H; set_solver.

(** C8: in a real search one [Event] is made, and it is a flag of the
    store start-up ends in; the overseer thread is handed all the
    locations together with that one signal, the control surface is
    handed the same reference by [set_search_control], and no call
    hands on any other signal.  On the store reached the signal reads
    false; a [set] through the control surface's reference is what the
    thread's reference reads, a [clear] after it likewise, and neither
    changes any other flag.  The script itself only makes and clears
    the signal. *)
Theorem pause_signal_is_shared w args st :
  locations st <> [] -> only_server args = false -> mock args = false ->
  let e := length (signals st) in
  let st' := final (startup w args st) in
  signals st' = signals st ++ [false] /\
  exists pre mid post t,
    trace st' =
      trace st ++ pre ++ [NewEvent e] ++ mid ++ [ThreadStart t] ++ post /\
    Forall (fun ev => is_new_event ev = false) (pre ++ mid ++ post) /\
    List.filter touches_flag
      (pre ++ [NewEvent e] ++ mid ++ [ThreadStart t] ++ post) =
      [NewEvent e; EventClear e] /\
    thread_target t = search_overseer_thread /\
    thread_args t =
      [VArgs; VLocations (locations st); VEvent e;
       VStr (get_encryption_lib_path w)] /\
    VEvent e ∈ thread_args t /\
    SetSearchControl e ∈ post /\
    Forall (fun ev => forall e', e' ∈ signals_given ev -> e' = e)
      (pre ++ [NewEvent e] ++ mid ++ [ThreadStart t] ++ post) /\
    forall e1 e2,
      VEvent e1 ∈ thread_args t ->
      SetSearchControl e2 ∈ pre ++ mid ++ post ->
      e1 = e2 /\
      flag_is_set e1 (signals st') = Some false /\
      flag_is_set e1 (flag_set e2 (signals st')) = Some true /\
      flag_is_set e1 (flag_clear e2 (flag_set e2 (signals st'))) =
        Some false /\
      (forall e', e' <> e2 ->
         flag_is_set e' (flag_set e2 (signals st')) =
           flag_is_set e' (signals st') /\
         flag_is_set e' (flag_clear e2 (signals st')) =
           flag_is_set e' (signals st')) /\
      (forall flags, e2 < length flags ->
         flag_is_set e1 (flag_set e2 flags) = Some true /\
         flag_is_set e1 (flag_clear e2 flags) = Some false).
Proof.
  intros H Hos Hmock e st'. subst e st'. rewrite startup_final by done.
  cbn [trace signals]. split; [reflexivity|]. set (e := length (signals st)).
  exists (announce_events args ++ database_events w args ++
          [SetLocations (locations st)]),
         [EventClear e; Log DEBUG "Starting a real search thread";
          NewThread search_overseer_thread
            (overseer_args w (locations st) e)],
         (serve_events w args e
            (Some (started search_overseer_thread
                     (overseer_args w (locations st) e)))),
         (started search_overseer_thread (overseer_args w (locations st) e)).
  assert (Hctl : Forall (fun ev => forall e2, ev = SetSearchControl e2 ->
                                              e2 = e)
                   ((announce_events args ++ database_events w args ++
                     [SetLocations (locations st)]) ++
                    [EventClear e; Log DEBUG "Starting a real search thread";
                     NewThread search_overseer_thread
                       (overseer_args w (locations st) e)] ++
                    serve_events w args e
                      (Some (started search_overseer_thread
                               (overseer_args w (locations st) e))))).
  { each_startup_event same_control. }
  assert (Hquiet : forall l : list (@event Account),
            Forall (fun ev => touches_flag ev = false) l ->
            List.filter touches_flag l = []).
  { intros l Hl. now apply filter_none. }
  split; [|split; [|split; [|split; [|split; [|split; [|split; [|split]]]]]]].
  - unfold startup_events, search_events, search_thread_of.
    rewrite Hos, Hmock. now rewrite <- !app_assoc.
  - each_startup_event by_evaluation.
  - rewrite (List.filter_app touches_flag
               (announce_events args ++ database_events w args ++
                [SetLocations (locations st)])).
    rewrite (Hquiet (announce_events args ++ database_events w args ++
                     [SetLocations (locations st)]))
      by (each_startup_event by_evaluation).
    cbn [app List.filter touches_flag].
    rewrite (Hquiet (serve_events w args e _))
      by (each_startup_event by_evaluation).
    reflexivity.
  - reflexivity.
  - reflexivity.
  - cbn. set_solver.
  - unfold serve_events. set_solver.
  - unfold overseer_args, started. each_startup_event the_signal.
  - intros e1 e2 Hthread Hcontrol.
    rewrite Forall_forall in Hctl.
    rewrite (Hctl _ Hcontrol e2 eq_refl).
    assert (e1 = e) as -> by (cbn in Hthread; set_solver).
    unfold flag_is_set, flag_set, flag_clear.
    assert (He : e < length (signals st ++ [false]))
      by (rewrite length_app; cbn; subst e; lia).
    split; [reflexivity|]. split; [|split; [|split; [|split]]].
    + subst e. now apply list_lookup_middle.
    + now apply list_lookup_insert_eq.
    + apply list_lookup_insert_eq. now rewrite length_insert.
    + intros e' Hne. split; now apply list_lookup_insert_ne.
    + intros flags Hvalid. split; now apply list_lookup_insert_eq.
Qed.

Lemma count_one (pre post : list (@event Account)) loc :
  Forall (fun ev => is_insert_mock_data ev = false) pre ->
  Forall (fun ev => is_insert_mock_data ev = false) post ->
  count_insert_mock_data (pre ++ [InsertMockData loc] ++ post) = 1.
Proof.
  intros Hpre Hpost. unfold count_insert_mock_data.
  rewrite List.filter_app, (filter_none _ _ Hpre). cbn.
  now rewrite (filter_none _ _ Hpost).
Qed.

Ltac only_fake_threads :=
  let tg := fresh "tg" in
  let targs := fresh "targs" in
  let Hev := fresh "Hev" in
  intros tg targs Hev; first [discriminate | now injection Hev].

(** Settles, for one call, that the only signal it hands on is the one
    named. *)
Ltac only_signal :=
  let e' := fresh "e'" in
  let H := fresh "H" in
  intros e' H; cbn in H; set_solver.

(** C6: in a mock search the pause signal is made and cleared as in a
    real one, and handed to the control surface; but the one thread
    made and started runs [fake_search_loop] with no argument at all,
    so it is handed neither the pause signal nor any other signal: the
    only call that hands a signal on is [set_search_control]. *)
Theorem fake_search_loop_gets_no_signal w args st :
  locations st <> [] -> only_server args = false -> mock args = true ->
  let e := length (signals st) in
  let st' := final (startup w args st) in
  signals st' = signals st ++ [false] /\
  exists pre mid post t,
    trace st' =
      trace st ++ pre ++ [NewEvent e; EventClear e] ++ mid ++
      [ThreadStart t] ++ post /\
    thread_target t = fake_search_loop /\
    thread_args t = [] /\
    Forall (fun ev => is_thread_start ev = false) (pre ++ mid ++ post) /\
    Forall (fun ev => forall tg targs,
              ev = NewThread tg targs -> tg = fake_search_loop /\ targs = [])
      (pre ++ mid ++ post) /\
    SetSearchControl e ∈ post /\
    Forall (fun ev => forall e', e' ∈ signals_given ev ->
                                 ev = SetSearchControl e)
      (pre ++ mid ++ [ThreadStart t] ++ post).
Proof.
  intros H Hos Hmock e st'. subst e st'. rewrite startup_final by done.
  cbn [trace signals]. split; [reflexivity|]. set (e := length (signals st)).
  destruct (locations st) as [|first rest] eqn:E; [done|].
  exists (announce_events args ++ database_events w args ++
          [SetLocations (first :: rest)]),
         [Log DEBUG "Starting a fake search thread"; InsertMockData first;
          NewThread fake_search_loop []],
         (serve_events w args e (Some (started fake_search_loop []))),
         (started fake_search_loop []).
  split; [|split; [|split; [|split; [|split; [|split]]]]].
  - unfold startup_events, search_events, search_thread_of.
    rewrite Hos, Hmock. now rewrite <- !app_assoc.
  - reflexivity.
  - reflexivity.
  - each_startup_event by_evaluation.
  - each_startup_event only_fake_threads.
  - unfold serve_events. set_solver.
  - each_startup_event only_signal.
Qed.

(** C7: in a mock search, that is with [mock] and a search asked for
    (no [only_server]), [insert_mock_data] is called exactly once, on
    the first location of the list, before the thread is made and
    started; that thread runs [fake_search_loop], and no other thread,
    so no overseer that would scan, is made or started. *)
Theorem mock_inserts_once w args st first rest :
  locations st = first :: rest ->
  mock args = true -> only_server args = false ->
  exists pre post,
    trace (final (startup w args st)) =
      trace st ++ pre ++
      [InsertMockData first; NewThread fake_search_loop [];
       ThreadStart (started fake_search_loop [])] ++ post /\
    Forall (fun ev => is_insert_mock_data ev = false) (pre ++ post) /\
    Forall (fun ev => is_thread_event ev = false) (pre ++ post) /\
    count_insert_mock_data (pre ++ [InsertMockData first] ++ post) = 1.
Proof.
  intros E Hmock Hos. rewrite startup_final by (now rewrite E).
  cbn [trace]. rewrite E. set (e := length (signals st)).
  exists (announce_events args ++ database_events w args ++
          [SetLocations (first :: rest); NewEvent e; EventClear e;
           Log DEBUG "Starting a fake search thread"]),
         (serve_events w args e (Some (started fake_search_loop []))).
  assert (Hnone : Forall (fun ev => is_insert_mock_data ev = false)
                    ((announce_events args ++ database_events w args ++
                      [SetLocations (first :: rest); NewEvent e;
                       EventClear e;
                       Log DEBUG "Starting a fake search thread"]) ++
                     serve_events w args e
                       (Some (started fake_search_loop [])))).
  { each_startup_event by_evaluation. }
  split; [|split; [|split]].
  - unfold startup_events, search_events, search_thread_of.
    rewrite Hos, Hmock. now rewrite <- !app_assoc.
  - exact Hnone.
  - each_startup_event by_evaluation.
  - apply Forall_app in Hnone as [Hpre Hpost]. now apply count_one.
Qed.

(** * Further properties *)

(** ** Texts *)

Lemma string_app_cons c (a b : string) : String c a +:+ b = String c (a +:+ b).
Proof. reflexivity. Qed.

Lemma string_app_nil_l (a : string) : "" +:+ a = a.
Proof. reflexivity. Qed.

Lemma string_app_length (a b : string) :
  String.length (a +:+ b) = String.length a + String.length b.
Proof.
  induction a as [|c a IH]; [done|]. rewrite string_app_cons. cbn.
  now rewrite IH.
Qed.

Lemma string_app_assoc (a b c : string) :
  (a +:+ b) +:+ c = a +:+ b +:+ c.
Proof.
  induction a as [|x a IH]; [done|]. rewrite !string_app_cons.
  now rewrite IH.
Qed.

Lemma string_app_nil_r (a : string) : a +:+ "" = a.
Proof.
  induction a as [|x a IH]; [done|]. rewrite string_app_cons.
  now rewrite IH.
Qed.

Lemma substring_prefix (a b : string) :
  String.substring 0 (String.length a) (a +:+ b) = a.
Proof.
  induction a as [|x a IH]; [now destruct b|]. rewrite string_app_cons. cbn.
  now rewrite IH.
Qed.

Lemma substring_skip (a b : string) k n :
  String.substring (String.length a + k) n (a +:+ b) = String.substring k n b.
Proof.
  induction a as [|x a IH]; [done|]. rewrite string_app_cons. cbn. apply IH.
Qed.

(** ** The matcher *)

Lemma shift_0 m : shift 0 m = m.
Proof. now destruct m. Qed.

Lemma shift_shift j k m : shift j (shift k m) = shift (k + j) m.
Proof. unfold shift. cbn. f_equal. lia. Qed.

Lemma advance_shift m : advance m = shift 1 m.
Proof. reflexivity. Qed.

Lemma run_plus_eq cls p s m :
  run (Chars Plus cls :: p) s m =
  match s with
  | String c s' => if cls c then more_of cls (run p) s' (advance m) else None
  | EmptyString => None
  end.
Proof. reflexivity. Qed.

Lemma more_of_inv cls rest : forall s m r,
  more_of cls rest s m = Some r ->
  exists pre s', s = pre +:+ s' /\ all_chars cls pre = true /\
                 rest s' (shift (String.length pre) m) = Some r.
Proof.
  induction s as [|c s IH]; intros m r H; cbn in H.
  - exists "", "". now rewrite shift_0.
  - destruct (cls c) eqn:Hc.
    + destruct (more_of cls rest s (advance m)) as [r'|] eqn:Hmore.
      * injection H as ->. apply IH in Hmore as (pre & s' & -> & Hall & Hrest).
        exists (String c pre), s'. cbn [all_chars String.length].
        rewrite Hc, Hall. rewrite advance_shift, shift_shift in Hrest.
        done.
      * exists "", (String c s). now rewrite shift_0.
    + exists "", (String c s). now rewrite shift_0.
Qed.

Lemma run_plus_inv cls p s m r :
  run (Chars Plus cls :: p) s m = Some r ->
  exists pre s', s = pre +:+ s' /\ pre <> "" /\ all_chars cls pre = true /\
                 run p s' (shift (String.length pre) m) = Some r.
Proof.
  rewrite run_plus_eq. destruct s as [|c s]; [done|].
  destruct (cls c) eqn:Hc; [|done]. intros H.
  apply more_of_inv in H as (pre & s' & -> & Hall & Hrest).
  exists (String c pre), s'. cbn [all_chars String.length].
  rewrite Hc, Hall. rewrite advance_shift, shift_shift in Hrest. done.
Qed.

Lemma run_one_inv cls p s m r :
  run (Chars One cls :: p) s m = Some r ->
  exists c s', s = String c s' /\ cls c = true /\
               run p s' (shift 1 m) = Some r.
Proof.
  cbn. destruct s as [|c s]; [done|]. destruct (cls c) eqn:Hc; [|done].
  intros H. now exists c, s.
Qed.

Lemma run_opt_inv cls p s m r :
  run (Chars Opt cls :: p) s m = Some r ->
  (exists c s', s = String c s' /\ cls c = true /\
                run p s' (shift 1 m) = Some r) \/
  run p s m = Some r.
Proof.
  cbn. destruct s as [|c s]; [now right|].
  destruct (cls c) eqn:Hc; [|now right].
  destruct (run p s (advance m)) as [r'|] eqn:Hr; [|now right].
  intros [= ->]. left. now exists c, s.
Qed.

Lemma is_char_eq x c : is_char x c = true -> c = x.
Proof. unfold is_char. now intros H%Ascii.eqb_eq. Qed.

Lemma run_number_inv p s m r :
  run (number ++ p) s m = Some r ->
  exists n s', s = n +:+ s' /\ decimal n /\
               run p s' (shift (String.length n) m) = Some r.
Proof.
  unfold number. cbn [app]. intros H.
  assert (Hcore : forall s m,
    run (Chars Plus is_digit :: Chars One (is_char ".") ::
         Chars Plus is_digit :: p) s m = Some r ->
    exists a b s', s = a +:+ "." +:+ b +:+ s' /\ a <> "" /\ b <> "" /\
      all_chars is_digit a = true /\ all_chars is_digit b = true /\
      run p s' (shift (String.length (a +:+ "." +:+ b)) m) = Some r).
  { clear. intros s m H.
    apply run_plus_inv in H as (a & s1 & -> & Ha & Hda & H).
    apply run_one_inv in H as (c & s2 & -> & ->%is_char_eq & H).
    apply run_plus_inv in H as (b & s3 & -> & Hb & Hdb & H).
    exists a, b, s3. repeat split; try done.
    rewrite !shift_shift in H. rewrite string_app_length. cbn.
    now replace (String.length a + S (String.length b))
      with (String.length a + 1 + String.length b) by lia. }
  apply run_opt_inv in H as [(c & s1 & -> & ->%is_char_eq & H)|H];
    apply Hcore in H as (a & b & s' & -> & Ha & Hb & Hda & Hdb & H).
  - exists ("-" +:+ a +:+ "." +:+ b), s'. split; [|split].
    + cbn. now rewrite !string_app_assoc.
    + now apply (Decimal true).
    + rewrite shift_shift in H. exact H.
  - exists (a +:+ "." +:+ b), s'. split; [|split].
    + now rewrite !string_app_assoc.
    + now apply (Decimal false).
    + exact H.
Qed.

Lemma run_open g p s m : run (Open g :: p) s m = run p s (open_group g m).
Proof. reflexivity. Qed.

Lemma run_close g p s m : run (Close g :: p) s m = run p s (close_group g m).
Proof. reflexivity. Qed.

Lemma run_end p s m :
  run (EndAnchor :: p) s m = if at_end s then run p s m else None.
Proof. reflexivity. Qed.

Lemma matched_spans n1 sep n2 :
  spans (matched n1 sep n2) !! 1 = Some (0, String.length n1) /\
  spans (matched n1 sep n2) !! 2 =
    Some (String.length n1 + String.length sep,
          String.length n1 + String.length sep + String.length n2).
Proof.
  unfold matched, close_group, open_group, shift.
  repeat (cbn [pos opened spans];
          rewrite ?lookup_insert_eq, ?lookup_insert_ne by done).
  cbn [pos opened spans].
  rewrite ?lookup_insert_eq, ?lookup_insert_ne by done.
  rewrite Nat.add_0_r. split; [done|]. do 2 f_equal; lia.
Qed.

Lemma group_matched n1 sep n2 tail :
  group (n1 +:+ sep +:+ n2 +:+ tail) (matched n1 sep n2) 1 = n1 /\
  group (n1 +:+ sep +:+ n2 +:+ tail) (matched n1 sep n2) 2 = n2.
Proof.
  unfold group. destruct (matched_spans n1 sep n2) as [-> ->]. split.
  - rewrite Nat.sub_0_r. apply substring_prefix.
  - replace (String.length n1 + String.length sep + String.length n2 -
             (String.length n1 + String.length sep))
      with (String.length n2) by lia.
    rewrite substring_skip.
    replace (String.length sep) with (String.length sep + 0) by lia.
    rewrite substring_skip. apply substring_prefix.
Qed.

(** What a match of [prog] from the start of a text consists of. *)
Lemma run_prog_inv s r :
  run prog s (MState 0 ∅ ∅) = Some r ->
  exists n1 sep n2 tail,
    s = n1 +:+ sep +:+ n2 +:+ tail /\ decimal n1 /\ decimal n2 /\
    is_separator sep = true /\ at_end tail = true /\
    r = matched n1 sep n2.
Proof.
  unfold prog. cbn [app]. rewrite run_open. intros H.
  apply run_number_inv in H as (n1 & s1 & -> & Hn1 & H).
  cbn [app] in H. rewrite run_close in H.
  assert (Hsep : exists sep s2, s1 = sep +:+ s2 /\ is_separator sep = true /\
            run ([Open 2] ++ number ++ [Close 2] ++ [EndAnchor]) s2
              (shift (String.length sep)
                 (close_group 1
                    (shift (String.length n1) (open_group 1 (MState 0 ∅ ∅)))))
            = Some r).
  { apply run_opt_inv in H as [(c & s2 & -> & Hc & H)|H];
      apply run_opt_inv in H as [(d & s3 & -> & Hd & H)|H].
    - exists (String c (String d "")), s3. cbn [is_separator].
      rewrite Hc, Hd. rewrite shift_shift in H. done.
    - exists (String c ""), s2. cbn [is_separator]. rewrite Hc. done.
    - exists (String d ""), s3. cbn [is_separator]. rewrite Hd.
      rewrite orb_true_r. done.
    - exists "", s1. rewrite shift_0. done. }
  destruct Hsep as (sep & s2 & -> & Hsep & H2).
  cbn [app] in H2. rewrite run_open in H2.
  apply run_number_inv in H2 as (n2 & tail & -> & Hn2 & H2).
  cbn [app] in H2. rewrite run_close, run_end in H2.
  destruct (at_end tail) eqn:Hend; [|done]. cbn [run] in H2.
  injection H2 as <-.
  now exists n1, sep, n2, tail.
Qed.

Lemma prog_match_inv element lat lng :
  prog_match element = Some (lat, lng) ->
  exists sep tail,
    element = lat +:+ sep +:+ lng +:+ tail /\ decimal lat /\ decimal lng /\
    is_separator sep = true /\ at_end tail = true.
Proof.
  unfold prog_match.
  destruct (run prog element (MState 0 ∅ ∅)) as [r|] eqn:Hrun; [|done].
  apply run_prog_inv in Hrun
    as (n1 & sep & n2 & tail & -> & Hn1 & Hn2 & Hsep & Hend & ->).
  destruct (group_matched n1 sep n2 tail) as [-> ->].
  intros [= <- <-]. now exists sep, tail.
Qed.

(** ** [float] on decimal literals *)

Lemma read_digits a s : forall acc frac,
  all_chars is_digit a = true ->
  exists acc',
    read_decimal (a +:+ s) acc frac =
    read_decimal s acc' (Nat.add (String.length a) <$> frac).
Proof.
  induction a as [|c a IH]; intros acc frac Hd.
  - exists acc. now destruct frac.
  - cbn in Hd. apply andb_true_iff in Hd as [Hc Hd].
    rewrite string_app_cons. cbn [read_decimal]. rewrite Hc.
    destruct (IH (10 * acc + digit_value c)%Z (S <$> frac) Hd) as (acc' & ->).
    exists acc'. f_equal. destruct frac; cbn; [|done]. f_equal. lia.
Qed.

Lemma read_decimal_literal a b acc :
  all_chars is_digit a = true -> all_chars is_digit b = true ->
  exists n, read_decimal (a +:+ "." +:+ b) acc None =
            Some (n, String.length b).
Proof.
  intros Ha Hb.
  destruct (read_digits a ("." +:+ b) acc None Ha) as (acc1 & ->).
  cbn [fmap option_fmap option_map].
  rewrite string_app_cons, string_app_nil_l. cbn [read_decimal]. change (is_digit ".") with false.
  change (Ascii.eqb "." ".") with true. cbv iota.
  destruct (read_digits b "" acc1 (Some 0) Hb) as (acc2 & Hr).
  rewrite string_app_nil_r in Hr. rewrite Hr. cbn.
  exists acc2. now rewrite Nat.add_0_r.
Qed.

Lemma float_unsigned text :
  starts_with is_digit text = true ->
  float text =
  match read_decimal text 0%Z None with
  | Some (n, k) => Some (n # Z.to_pos (10 ^ Z.of_nat k))
  | None => None
  end.
Proof.
  destruct text as [|c text]; [done|]. cbn [starts_with]. intros Hc.
  unfold float.
  destruct c as [[] [] [] [] [] [] [] []]; try discriminate Hc; reflexivity.
Qed.

(** A text that starts with a digit is not the lone point. *)
Lemma digits_not_point (a rest : string) :
  a <> "" -> all_chars is_digit a = true ->
  String.eqb (a +:+ rest) "." = false.
Proof.
  intros Ha Hda. destruct a as [|c a]; [done|]. rewrite string_app_cons.
  cbn in Hda. apply andb_true_iff in Hda as [Hc _]. cbn [String.eqb].
  destruct (Ascii.eqb c ".") eqn:E; [|done].
  apply Ascii.eqb_eq in E as ->. discriminate Hc.
Qed.

Lemma float_decimal n : decimal n -> is_Some (float n).
Proof.
  intros [neg a b Ha Hb Hda Hdb].
  destruct neg.
  - unfold float. rewrite string_app_cons, string_app_nil_l.
    rewrite digits_not_point by done.
    destruct (read_decimal_literal a b 0%Z Hda Hdb) as (k & ->). done.
  - rewrite string_app_nil_l, float_unsigned.
    + destruct (read_decimal_literal a b 0%Z Hda Hdb) as (k & ->). done.
    + destruct a as [|c a]; [done|]. rewrite string_app_cons. cbn in *.
      now apply andb_true_iff in Hda as [-> _].
Qed.

(** ** The matcher on a text that fits *)

Lemma more_of_intro cls rest a s' r : forall m,
  all_chars cls a = true -> starts_with cls s' = false ->
  rest s' (shift (String.length a) m) = Some r ->
  more_of cls rest (a +:+ s') m = Some r.
Proof.
  induction a as [|c a IH]; intros m Ha Hs' H.
  - rewrite string_app_nil_l. rewrite shift_0 in H.
    destruct s' as [|d s']; cbn in *; [done|]. now rewrite Hs'.
  - cbn in Ha. apply andb_true_iff in Ha as [Hc Ha].
    rewrite string_app_cons. cbn [more_of]. rewrite Hc.
    fold (more_of cls rest). rewrite (IH (advance m)); [done..|].
    rewrite advance_shift, shift_shift. exact H.
Qed.

Lemma run_plus_intro cls p a s' m r :
  a <> "" -> all_chars cls a = true -> starts_with cls s' = false ->
  run p s' (shift (String.length a) m) = Some r ->
  run (Chars Plus cls :: p) (a +:+ s') m = Some r.
Proof.
  intros Hne Ha Hs' H. destruct a as [|c a]; [done|].
  cbn in Ha. apply andb_true_iff in Ha as [Hc Ha].
  rewrite run_plus_eq, string_app_cons, Hc.
  apply more_of_intro; [done..|].
  rewrite advance_shift, shift_shift. exact H.
Qed.

Lemma run_one_intro cls p c s' m r :
  cls c = true -> run p s' (shift 1 m) = Some r ->
  run (Chars One cls :: p) (String c s') m = Some r.
Proof. intros Hc H. cbn. now rewrite Hc. Qed.

Lemma run_opt_take cls p c s' m r :
  cls c = true -> run p s' (shift 1 m) = Some r ->
  run (Chars Opt cls :: p) (String c s') m = Some r.
Proof.
  intros Hc H. cbn. rewrite Hc. change (advance m) with (shift 1 m).
  now rewrite H.
Qed.

Lemma run_opt_skip cls p s m :
  starts_with cls s = false ->
  run (Chars Opt cls :: p) s m = run p s m.
Proof. destruct s as [|c s]; cbn; [done|]. now intros ->. Qed.

Lemma digit_not_char c x :
  is_digit c = true -> is_digit x = false -> is_char x c = false.
Proof.
  intros Hc Hx. unfold is_char. apply Ascii.eqb_neq. now intros ->; congruence.
Qed.

Lemma run_number_intro p n s' m r :
  decimal n -> starts_with is_digit s' = false ->
  run p s' (shift (String.length n) m) = Some r ->
  run (number ++ p) (n +:+ s') m = Some r.
Proof.
  intros [neg a b Ha Hb Hda Hdb] Hs' H. unfold number. cbn [app].
  assert (Hcore : forall m,
    run p s' (shift (String.length (a +:+ "." +:+ b)) m) = Some r ->
    run (Chars Plus is_digit :: Chars One (is_char ".") ::
         Chars Plus is_digit :: p) ((a +:+ "." +:+ b) +:+ s') m = Some r).
  { clear m H. intros m H. rewrite !string_app_assoc.
    apply run_plus_intro; [done..|].
    rewrite string_app_cons, string_app_nil_l.
    apply run_one_intro; [done|].
    apply run_plus_intro; [done..|].
    rewrite !shift_shift. rewrite string_app_length in H. cbn in H.
    now replace (String.length a + 1 + String.length b)
      with (String.length a + S (String.length b)) by lia. }
  destruct neg.
  - rewrite string_app_assoc, string_app_cons, string_app_nil_l.
    apply run_opt_take; [done|]. apply Hcore.
    rewrite shift_shift. exact H.
  - rewrite string_app_nil_l in *. rewrite run_opt_skip; [now apply Hcore|].
    destruct a as [|c a]; [done|]. rewrite !string_app_cons. cbn in *.
    apply andb_true_iff in Hda as [Hc _]. now apply digit_not_char.
Qed.

Lemma space_not_digit c : is_space c = true -> is_digit c = false.
Proof.
  destruct c as [[] [] [] [] [] [] [] []]; try reflexivity; discriminate.
Qed.

Lemma space_not_comma c : is_space c = true -> is_char "," c = false.
Proof.
  destruct c as [[] [] [] [] [] [] [] []]; try reflexivity; discriminate.
Qed.

Lemma decimal_not_space n : decimal n -> starts_with is_space n = false.
Proof.
  intros [neg a b Ha Hb Hda Hdb]. destruct neg; [done|].
  rewrite string_app_nil_l. destruct a as [|c a]; [done|].
  rewrite string_app_cons. cbn in *. apply andb_true_iff in Hda as [Hc _].
  destruct (is_space c) eqn:Hs; [|done]. apply space_not_digit in Hs.
  congruence.
Qed.

Lemma decimal_not_comma n : decimal n -> starts_with (is_char ",") n = false.
Proof.
  intros [neg a b Ha Hb Hda Hdb]. destruct neg; [done|].
  rewrite string_app_nil_l. destruct a as [|c a]; [done|].
  rewrite string_app_cons. cbn in *. apply andb_true_iff in Hda as [Hc _].
  now apply digit_not_char.
Qed.

Lemma starts_with_app cls (s t : string) :
  s <> "" -> starts_with cls (s +:+ t) = starts_with cls s.
Proof. now destruct s. Qed.

Lemma decimal_nonempty n : decimal n -> n <> "".
Proof.
  intros [neg a b Ha _ _ _]. destruct neg; [done|].
  rewrite string_app_nil_l. now destruct a.
Qed.

(** The rest of [prog] after the separator, on the second number and
    the end of the text. *)
Lemma run_second_number n2 tail m :
  decimal n2 -> at_end tail = true ->
  run ([Open 2] ++ number ++ [Close 2] ++ [EndAnchor]) (n2 +:+ tail) m =
  Some (close_group 2 (shift (String.length n2) (open_group 2 m))).
Proof.
  intros Hn2 Hend. cbn [app]. rewrite run_open.
  apply run_number_intro; [done| |].
  - destruct tail as [|c [|? ?]]; cbn in *; try done.
    now apply Ascii.eqb_eq in Hend as ->.
  - cbn [app]. now rewrite run_close, run_end, Hend.
Qed.

(** A decimal, a separator, a decimal and the end of the text, where
    the first decimal is not followed by a digit: [prog] matches and the
    decimals are its groups. *)
Lemma run_prog_intro n1 sep n2 tail :
  decimal n1 -> decimal n2 -> is_separator sep = true ->
  starts_with is_digit (sep +:+ n2) = false -> at_end tail = true ->
  run prog (n1 +:+ sep +:+ n2 +:+ tail) (MState 0 ∅ ∅) =
  Some (matched n1 sep n2).
Proof.
  intros Hn1 Hn2 Hsep Hnd Hend. unfold prog. cbn [app]. rewrite run_open.
  pose proof (decimal_not_space n2 Hn2) as Hns.
  pose proof (decimal_not_comma n2 Hn2) as Hnc.
  pose proof (decimal_nonempty n2 Hn2) as Hne.
  assert (Hns' : starts_with is_space (n2 +:+ tail) = false)
    by (now rewrite starts_with_app).
  assert (Hnc' : starts_with (is_char ",") (n2 +:+ tail) = false)
    by (now rewrite starts_with_app).
  apply run_number_intro; [done| |].
  - destruct sep as [|c sep]; [|done].
    rewrite string_app_nil_l in *. now rewrite starts_with_app.
  - cbn [app]. rewrite run_close. unfold matched.
    destruct sep as [|c [|d [|? ?]]]; cbn in Hsep; try done.
    + rewrite string_app_nil_l. rewrite !run_opt_skip by done.
      rewrite shift_0. now apply run_second_number.
    + rewrite string_app_cons, string_app_nil_l.
      apply orb_true_iff in Hsep as [Hc|Hs].
      * apply run_opt_take; [done|]. rewrite run_opt_skip by done.
        now apply run_second_number.
      * rewrite run_opt_skip by (now apply space_not_comma).
        apply run_opt_take; [done|]. now apply run_second_number.
    + apply andb_true_iff in Hsep as [Hc Hd].
      rewrite !string_app_cons, string_app_nil_l.
      apply run_opt_take; [done|]. apply run_opt_take; [done|].
      rewrite shift_shift. now apply run_second_number.
Qed.

(** ** Two numbers without a separator *)

Lemma more_of_backtrack cls rest b c s' r : forall m,
  all_chars cls b = true -> cls c = true -> starts_with cls s' = false ->
  rest s' (shift (S (String.length b)) m) = None ->
  rest (String c s') (shift (String.length b) m) = Some r ->
  more_of cls rest (b +:+ String c s') m = Some r.
Proof.
  induction b as [|x b IH]; intros m Hb Hc Hs' Hfail H.
  - rewrite string_app_nil_l. rewrite shift_0 in H. cbn [more_of]. rewrite Hc.
    fold (more_of cls rest).
    replace (more_of cls rest s' (advance m)) with (@None mstate); [done|].
    destruct s' as [|y s']; cbn in *; [done|]. now rewrite Hs'.
  - cbn in Hb. apply andb_true_iff in Hb as [Hx Hb].
    rewrite string_app_cons. cbn [more_of]. rewrite Hx.
    fold (more_of cls rest). rewrite (IH (advance m)); [done..| |].
    + rewrite advance_shift, shift_shift. exact Hfail.
    + rewrite advance_shift, shift_shift. exact H.
Qed.

Lemma run_plus_backtrack cls p b c s' m r :
  b <> "" -> all_chars cls b = true -> cls c = true ->
  starts_with cls s' = false ->
  run p s' (shift (S (String.length b)) m) = None ->
  run p (String c s') (shift (String.length b) m) = Some r ->
  run (Chars Plus cls :: p) (b +:+ String c s') m = Some r.
Proof.
  intros Hne Hb Hc Hs' Hfail H. destruct b as [|x b]; [done|].
  cbn in Hb. apply andb_true_iff in Hb as [Hx Hb].
  rewrite run_plus_eq, string_app_cons, Hx.
  apply more_of_backtrack; [done..| |].
  - rewrite advance_shift, shift_shift. exact Hfail.
  - rewrite advance_shift, shift_shift. exact H.
Qed.

(** A number followed by one more digit, where the rest of the pattern
    fails after that digit and succeeds before it. *)
Lemma run_number_glued p n1 c s' m r :
  decimal n1 -> is_digit c = true -> starts_with is_digit s' = false ->
  run p s' (shift (S (String.length n1)) m) = None ->
  run p (String c s') (shift (String.length n1) m) = Some r ->
  run (number ++ p) (n1 +:+ String c s') m = Some r.
Proof.
  intros [neg a b Ha Hb Hda Hdb] Hc Hs' Hfail H. unfold number. cbn [app].
  assert (Hcore : forall m,
    run p s' (shift (S (String.length (a +:+ "." +:+ b))) m) = None ->
    run p (String c s') (shift (String.length (a +:+ "." +:+ b)) m) = Some r ->
    run (Chars Plus is_digit :: Chars One (is_char ".") ::
         Chars Plus is_digit :: p) ((a +:+ "." +:+ b) +:+ String c s') m =
    Some r).
  { clear m H Hfail. intros m Hfail H. rewrite !string_app_assoc.
    apply run_plus_intro; [done..|].
    rewrite string_app_cons, string_app_nil_l.
    apply run_one_intro; [done|].
    rewrite !string_app_length in Hfail, H. cbn [String.length] in Hfail, H.
    apply run_plus_backtrack; [done..| |]; rewrite !shift_shift.
    - now replace (String.length a + (1 + S (String.length b)))
        with (S (String.length a + (1 + String.length b))) by lia.
    - now replace (String.length a + (1 + String.length b))
        with (String.length a + (1 + String.length b)) by lia. }
  destruct neg.
  - rewrite string_app_assoc, string_app_cons, string_app_nil_l.
    rewrite string_app_cons, string_app_nil_l in Hfail, H.
    apply run_opt_take; [done|]. apply Hcore; rewrite shift_shift.
    + now rewrite Nat.add_1_l.
    + exact H.
  - rewrite string_app_nil_l in *. rewrite run_opt_skip; [now apply Hcore|].
    destruct a as [|x a]; [done|]. rewrite !string_app_cons. cbn in *.
    apply andb_true_iff in Hda as [Hx _]. now apply digit_not_char.
Qed.

Lemma digit_not_space c : is_digit c = true -> is_space c = false.
Proof.
  intros Hc. destruct (is_space c) eqn:Hs; [|done].
  apply space_not_digit in Hs. congruence.
Qed.

(** ** The location argument as text *)

Lemma count_char_app c (a b : string) :
  count_char c (a +:+ b) = count_char c a + count_char c b.
Proof.
  induction a as [|x a IH]; [done|]. rewrite string_app_cons. cbn.
  rewrite IH. lia.
Qed.

Lemma decimal_has_point n : decimal n -> 1 <= count_char "." n.
Proof.
  intros [neg a b _ _ _ _]. rewrite !count_char_app. cbn. lia.
Qed.

(** X1: what the pattern of line 91 accepts, on text of code points
    below 256.  When [prog.match] succeeds, the text is the first
    group, a separator of the form [,?\s?] (where [\s] takes in the
    next-line character and the no-break space), the second group and
    at most a final newline, and both groups are decimal literals
    [-?\d+\.\d+]. *)
Theorem prog_match_decimal_pair element lat lng :
  prog_match element = Some (lat, lng) ->
  decimal lat /\ decimal lng /\
  exists sep tail,
    element = lat +:+ sep +:+ lng +:+ tail /\
    is_separator sep = true /\ (tail = "" \/ tail = String "010" "").
Proof.
  intros (sep & tail & -> & Hlat & Hlng & Hsep & Hend)%prog_match_inv.
  split; [done|]. split; [done|]. exists sep, tail.
  split; [done|]. split; [done|].
  destruct tail as [|c [|? ?]]; cbn in Hend; try done; [now left|right].
  now apply Ascii.eqb_eq in Hend as ->.
Qed.

(** X2: a decimal literal, a separator of the form [,?\s?], a decimal
    literal and at most a final newline, where the first literal is not
    followed by a digit: the pattern matches, with the two literals as
    its groups. *)
Theorem decimal_pair_matches n1 sep n2 tail :
  decimal n1 -> decimal n2 -> is_separator sep = true ->
  starts_with is_digit (sep +:+ n2) = false -> at_end tail = true ->
  prog_match (n1 +:+ sep +:+ n2 +:+ tail) = Some (n1, n2).
Proof.
  intros Hn1 Hn2 Hsep Hnd Hend. unfold prog_match.
  rewrite run_prog_intro by done.
  now destruct (group_matched n1 sep n2 tail) as [-> ->].
Qed.

(** X3: two unsigned numbers written without a separator are split at
    the last digit before the second point: the first group gives back
    exactly one digit, so [1.234.5] is read as [1.23] and [4.5]. *)
Theorem glued_numbers_split_at_last_digit n1 c d tail :
  decimal n1 -> is_digit c = true ->
  d <> "" -> all_chars is_digit d = true -> at_end tail = true ->
  prog_match (n1 +:+ String c ("." +:+ d) +:+ tail) =
  Some (n1, String c ("." +:+ d)).
Proof.
  intros Hn1 Hc Hd Hdd Hend.
  assert (Hn2 : decimal (String c ("." +:+ d)))
    by (apply (Decimal false (String c "") d);
        [done|done|cbn; now rewrite Hc|done]).
  unfold prog_match.
  replace (run prog (n1 +:+ String c ("." +:+ d) +:+ tail) (MState 0 ∅ ∅))
    with (Some (matched n1 "" (String c ("." +:+ d)))).
  { pose proof (group_matched n1 "" (String c ("." +:+ d)) tail) as [H1 H2].
    rewrite string_app_nil_l in H1, H2. now rewrite H1, H2. }
  symmetry. unfold prog. cbn [app]. rewrite run_open.
  rewrite !string_app_cons.
  apply run_number_glued; [done..| | |].
  - done.
  - cbn [app]. rewrite run_close. rewrite !run_opt_skip by done.
    rewrite run_open. unfold number. cbn [app].
    rewrite run_opt_skip by done. now rewrite run_plus_eq.
  - cbn [app]. rewrite run_close.
    rewrite run_opt_skip by (cbn; now apply digit_not_char).
    rewrite run_opt_skip by (cbn; now apply digit_not_space).
    unfold matched. rewrite shift_0.
    change (String c (String "." (("" +:+ d) +:+ tail)))
      with (String c (String "." ("" +:+ d)) +:+ tail).
    apply run_second_number; [exact Hn2|done].
Qed.

(** X4: a text with fewer than two points is never taken for a pair of
    coordinates: integers such as [48,2] and place names go to the
    geocoder branch. *)
Theorem few_points_no_match element :
  count_char "." element < 2 -> prog_match element = None.
Proof.
  intros Hlt. destruct (prog_match element) as [[lat lng]|] eqn:E; [|done].
  apply prog_match_inv in E as (sep & tail & -> & Hlat & Hlng & _).
  apply decimal_has_point in Hlat, Hlng.
  rewrite !count_char_app in Hlt. lia.
Qed.

Lemma join_cons sep f fs :
  fs <> [] -> join sep (f :: fs) = f +:+ sep +:+ join sep fs.
Proof. now destruct fs. Qed.

(** [split] gives one field more than there are separators. *)
Lemma split_on_length sep s :
  length (split_on sep s) = S (count_char sep s).
Proof.
  induction s as [|c s IH]; [done|]. cbn [split_on count_char].
  destruct (Ascii.eqb c sep); [cbn; now rewrite IH|].
  destruct (split_on sep s) as [|f fs]; cbn in *; lia.
Qed.

(** X5: [split] loses nothing.  The fields of [s.split(sep)], joined by
    [sep], are [s]; there is one field more than [s] has separators;
    and no field holds a separator. *)
Theorem split_on_join sep s :
  join (String sep "") (split_on sep s) = s /\
  length (split_on sep s) = S (count_char sep s) /\
  Forall (fun f => count_char sep f = 0) (split_on sep s).
Proof.
  induction s as [|c s (IHj & IHl & IHf)]; [by repeat constructor|].
  cbn [split_on count_char].
  destruct (Ascii.eqb c sep) eqn:Hc.
  - apply Ascii.eqb_eq in Hc as ->. split; [|split].
    + rewrite join_cons by apply split_on_nonempty. now rewrite IHj.
    + cbn. now rewrite IHl.
    + now constructor.
  - destruct (split_on sep s) as [|f fs] eqn:E;
      [now apply split_on_nonempty in E|].
    split; [|split].
    + destruct fs as [|f' fs]; cbn in *; [by rewrite IHj|].
      rewrite string_app_cons. now rewrite IHj.
    + cbn in *. lia.
    + apply Forall_cons in IHf as [Hf Hfs]. constructor; [|done].
      cbn. now rewrite Hc, Hf.
Qed.

(** X6: [split] finds the fields again.  Fields that hold no separator,
    joined by it, are split into those fields. *)
Theorem join_split_on sep fields :
  fields <> [] -> Forall (fun f => count_char sep f = 0) fields ->
  split_on sep (join (String sep "") fields) = fields.
Proof.
  intros Hne Hall. induction Hall as [|f fs Hf Hfs IH]; [done|].
  assert (Hfield : forall rest,
            split_on sep (f +:+ String sep "" +:+ rest) =
            f :: split_on sep rest).
  { clear -Hf. intros rest. induction f as [|c f IH].
    - rewrite string_app_nil_l, string_app_cons, string_app_nil_l.
      cbn. now rewrite Ascii.eqb_refl.
    - cbn in Hf. rewrite string_app_cons. cbn [split_on].
      destruct (Ascii.eqb c sep); [lia|]. now rewrite IH. }
  destruct fs as [|f' fs].
  - cbn [join]. clear -Hf. induction f as [|c f IH]; [done|].
    cbn in Hf. cbn [split_on]. destruct (Ascii.eqb c sep); [lia|].
    now rewrite IH.
  - rewrite join_cons by done. rewrite Hfield. now rewrite IH.
Qed.

(** ** The loop over the location elements *)

(** The round of the loop for a coordinate pair whose groups
    convert. *)
Lemma parse_location_coordinates globals w args element lat lng qlat qlng st :
  "PogoWorker" ∈ globals ->
  prog_match element = Some (lat, lng) ->
  float lat = Some qlat -> float lng = Some qlng ->
  parse_location globals w args element st =
  Ok tt (State (heap st ++ [Build_PogoWorker qlat qlng 0 None])
           (signals st) (locations st ++ [length (heap st)]) (config st)
           (trace st ++ [Log DEBUG "Using coordinates from CLI directly"])).
Proof.
  intros Hbound Hm Hqlat Hqlng.
  unfold parse_location, lookup_global, to_float.
  rewrite Hm, Hqlat, Hqlng, decide_True by done.
  run_block. unfold bind, new_PogoWorker, locations_append, set_locations.
  cbn [heap signals locations config trace]. reflexivity.
Qed.

(** X7: an element the pattern matches never fails to convert.  With
    [PogoWorker] bound, the round makes a location object from
    [float] of the two groups and altitude 0, appends it to
    [locations], and calls neither the geocoder nor anything else but
    the debug log: no [ValueError] can come from [float]. *)
Theorem coordinates_are_used_directly globals w args element lat lng st :
  "PogoWorker" ∈ globals ->
  prog_match element = Some (lat, lng) ->
  exists qlat qlng,
    float lat = Some qlat /\ float lng = Some qlng /\
    parse_location globals w args element st =
    Ok tt (State (heap st ++ [Build_PogoWorker qlat qlng 0 None])
             (signals st) (locations st ++ [length (heap st)]) (config st)
             (trace st ++ [Log DEBUG "Using coordinates from CLI directly"])).
Proof.
  intros Hbound Hm.
  destruct (prog_match_inv _ _ _ Hm) as (sep & tail & _ & Hlat & Hlng & _).
  destruct (float_decimal _ Hlat) as [qlat Hqlat].
  destruct (float_decimal _ Hlng) as [qlng Hqlng].
  exists qlat, qlng. split; [done|]. split; [done|].
  now apply (parse_location_coordinates _ _ _ _ lat lng).
Qed.

(** A round of the loop that succeeds: one new object, without an
    account, at the end of the heap and of [locations]. *)
Lemma parse_location_ok globals w args element st :
  "PogoWorker" ∈ globals ->
  (prog_match element = None ->
   is_Some (get_pos_by_name w (location args))) ->
  exists pw,
    account pw = None /\
    parse_location globals w args element st =
    Ok tt (State (heap st ++ [pw]) (signals st)
             (locations st ++ [length (heap st)]) (config st)
             (trace st ++ element_events args element)).
Proof.
  intros Hbound Hgeo. unfold element_events.
  destruct (prog_match element) as [[lat lng]|] eqn:Hm.
  - destruct (prog_match_inv _ _ _ Hm) as (sep & tail & _ & Hlat & Hlng & _).
    destruct (float_decimal _ Hlat) as [qlat Hqlat].
    destruct (float_decimal _ Hlng) as [qlng Hqlng].
    eexists. split; [|now apply (parse_location_coordinates _ _ _ _ lat lng qlat qlng)].
    done.
  - destruct Hgeo as [p Hp]; [done|].
    unfold parse_location, lookup_global, call_get_pos_by_name.
    rewrite Hm, Hp, decide_True by done.
    run_block. unfold bind, new_PogoWorker, locations_append, set_locations.
    cbn [heap signals locations config trace]. now eexists.
Qed.

(** The loop of lines 94-103 when every round succeeds. *)
Lemma parse_loop_ok globals w args fields : forall st,
  "PogoWorker" ∈ globals ->
  (forall x, x ∈ fields -> prog_match x = None ->
             is_Some (get_pos_by_name w (location args))) ->
  exists pws,
    length pws = length fields /\
    Forall (fun pw => account pw = None) pws /\
    for_ fields (parse_location globals w args) st =
    Ok tt (State (heap st ++ pws) (signals st)
             (locations st ++ seq (length (heap st)) (length fields))
             (config st)
             (trace st ++ concat (map (element_events args) fields))).
Proof.
  induction fields as [|x fields IH]; intros st Hbound Hgeo.
  - exists []. split; [done|]. split; [done|]. cbn.
    now rewrite !app_nil_r, state_eta.
  - destruct (parse_location_ok globals w args x st Hbound)
      as (pw & Hpw & Hx); [intros; eapply Hgeo; [left|done]|].
    cbn [for_]. erewrite bind_Ok by exact Hx.
    edestruct IH as (pws & Hlen & Hall & ->); [done| |].
    { intros y Hy. apply Hgeo. now right. }
    cbn [heap signals locations config trace].
    exists (pw :: pws). split; [cbn; lia|]. split; [now constructor|].
    rewrite length_app. cbn [length map concat seq].
    rewrite <- !app_assoc. cbn [app].
    now rewrite Nat.add_1_r.
Qed.

(** Lines 90-103 when every round succeeds. *)
Lemma parse_locations_ok globals w args st :
  "PogoWorker" ∈ globals ->
  (forall x, x ∈ split_on "|" (location args) -> prog_match x = None ->
             is_Some (get_pos_by_name w (location args))) ->
  exists pws,
    parse_locations globals w args st =
    Ok tt (State (heap st ++ pws) (signals st)
             (seq (length (heap st)) (S (count_char "|" (location args))))
             (config st)
             (trace st ++
              concat (map (element_events args)
                        (split_on "|" (location args))))) /\
    length pws = S (count_char "|" (location args)) /\
    Forall (fun pw => account pw = None) pws.
Proof.
  intros Hbound Hgeo. unfold parse_locations. rewrite bind_set_locations.
  edestruct (parse_loop_ok globals w args (split_on "|" (location args)))
    as (pws & Hlen & Hall & ->); [done..|].
  cbn [heap signals locations config trace app].
  rewrite split_on_length in *. now exists pws.
Qed.


(** X9: for an argument of code points below 256, the geocoder is
    called once for every element the pattern does not match, each time
    with the whole argument; elements the pattern matches cause no
    call. *)
Theorem one_lookup_per_place_name globals w args st :
  "PogoWorker" ∈ globals ->
  (forall x, x ∈ split_on "|" (location args) -> prog_match x = None ->
             is_Some (get_pos_by_name w (location args))) ->
  exists evs,
    trace (final (parse_locations globals w args st)) = trace st ++ evs /\
    List.filter is_lookup evs =
    replicate
      (length (List.filter (fun x => bool_decide (prog_match x = None))
                 (split_on "|" (location args))))
      (GetPosByName (location args)).
Proof.
  intros Hbound Hgeo. unfold parse_locations. rewrite bind_set_locations.
  edestruct (parse_loop_ok globals w args (split_on "|" (location args)))
    as (pws & Hlen & Hall & ->); [done..|].
  cbn [final heap signals locations config trace app].
  eexists. split; [reflexivity|].
  generalize (split_on "|" (location args)) as fields. clear.
  induction fields as [|x fields IH]; [done|].
  cbn [map concat]. rewrite List.filter_app, IH. cbn [List.filter].
  unfold element_events.
  destruct (prog_match x) as [[lat lng]|]; cbn; [done|].
  reflexivity.
Qed.



(** ** The early exits *)

(** X11: without the encryption library the script stops at once, with
    exit status 1: nothing is logged, configured or started, whatever
    the arguments are. *)
Theorem missing_encryption_library_exits w args globals st :
  get_encryption_lib_path w = "" ->
  main globals w args st = Raise (SystemExit (Some 1%Z)) st /\
  exit_status (SystemExit (Some 1%Z)) = 1%Z.
Proof.
  intros Hpath. split; [|done]. unfold main, prologue. rewrite Hpath.
  cbn [String.eqb when]. unfold sys_exit. now repeat run_step.
Qed.

(** X12: when the server is asked for and [static/dist] is missing, the
    script logs the critical message of line 70, in full, and leaves by
    [sys.exit()] without an argument: the exit status is 0, and nothing
    but the root log level has been set. *)
Theorem missing_assets_exit_with_status_zero w args globals st :
  get_encryption_lib_path w <> "" ->
  no_server args = false -> static_dist_exists w = false ->
  main globals w args st =
  Raise (SystemExit None)
    (State (heap st) (signals st) (locations st) (config st)
       (trace st ++
        [SetLevel "root" (if debug args then DEBUG else INFO);
         Log CRITICAL missing_assets_message])) /\
  exit_status (SystemExit None) = 0%Z.
Proof.
  intros Hpath Hserver Hassets. split; [|done]. unfold main, prologue.
  apply String.eqb_neq in Hpath. rewrite Hpath, Hserver, Hassets.
  run_block. reflexivity.
Qed.

(** ** Log levels *)

Lemma logger_level_app name (tr evs : list (@event Account)) lvl :
  logger_level name evs = Some lvl ->
  logger_level name (tr ++ evs) = Some lvl.
Proof.
  unfold logger_level. rewrite omap_app.
  generalize (omap (fun e : @event Account =>
                      match e with
                      | SetLevel logger lvl0 =>
                          if String.eqb logger name then Some lvl0 else None
                      | _ => None
                      end) evs) as l.
  intros l Hl. destruct l as [|x l _] using rev_ind; [done|].
  rewrite app_assoc, !last_snoc in *. done.
Qed.

(** X13: the levels the loggers are left with.  The root logger is at
    DEBUG or INFO and [requests] at DEBUG or WARNING, as [debug] says;
    [peewee] and [werkzeug] are at INFO and ERROR; and the levels set on
    [pgoapi.pgoapi] and [pgoapi.rpc_api] stay WARNING and INFO even with
    [debug], which sets the loggers [pgoapi] and [rpc_api] instead. *)
Theorem debug_leaves_pgoapi_levels w args st :
  get_encryption_lib_path w <> "" ->
  no_server args = true \/ static_dist_exists w = true ->
  let tr := trace (final (prologue w args st)) in
  logger_level "root" tr = Some (if debug args then DEBUG else INFO) /\
  logger_level "requests" tr = Some (if debug args then DEBUG else WARNING) /\
  logger_level "peewee" tr = Some INFO /\
  logger_level "werkzeug" tr = Some ERROR /\
  logger_level "pgoapi.pgoapi" tr = Some WARNING /\
  logger_level "pgoapi.rpc_api" tr = Some INFO /\
  (debug args = true ->
   logger_level "pgoapi" tr = Some DEBUG /\
   logger_level "rpc_api" tr = Some DEBUG).
Proof.
  intros Hpath Hassets tr. subst tr. rewrite prologue_eq by done.
  cbn [final trace]. unfold prologue_events.
  split; [|split; [|split; [|split; [|split; [|split]]]]];
    try (apply logger_level_app; destruct (debug args); reflexivity).
  intros Hdebug. rewrite Hdebug.
  split; apply logger_level_app; reflexivity.
Qed.

(** ** More accounts than locations, and none *)

(** X14: with more accounts than locations, binding gives every location
    its account, in order, and then raises [IndexError] at the first
    account that has no location; [locations] is not shortened, no
    warning is logged, and start-up is not reached. *)
Theorem more_accounts_than_locations w args st :
  length (locations st) < length (accounts args) ->
  exists st',
    add_accounts_to_locations args st =
      Raise (IndexError "list index out of range") st' /\
    bind (add_accounts_to_locations args) (fun _ => startup w args) st =
      Raise (IndexError "list index out of range") st' /\
    locations st' = locations st /\
    trace st' =
      trace st ++
      zip_with AddAccount (locations st)
        (take (length (locations st)) (accounts args)) /\
    signals st' = signals st.
Proof.
  intros Hlt. rewrite add_accounts_to_locations_eq.
  rewrite decide_False by lia. rewrite decide_False by lia.
  eexists. split; [reflexivity|]. split; [|split; [|split]].
  - unfold bind. rewrite add_accounts_to_locations_eq.
    rewrite decide_False by lia. now rewrite decide_False by lia.
  - cbn. now rewrite take_ge by lia.
  - cbn. now rewrite zip_with_take_r by lia.
  - reflexivity.
Qed.

(** X15: without any account, binding empties [locations], whatever it
    held (with the warning if it held something), binds nothing, and
    start-up stops at once by [sys.exit()]: exit status 0, and no
    signal, database call or thread is made. *)
Theorem no_accounts_no_start w args st :
  accounts args = [] ->
  bind (add_accounts_to_locations args) (fun _ => startup w args) st =
  Raise (SystemExit None)
    (State (heap st) (signals st) [] (config st)
       (trace st ++
        (if decide (locations st = []) then [] else [binding_warning]) ++
        [Log ERROR "Could not initialize locations, aborting"])) /\
  exit_status (SystemExit None) = 0%Z.
Proof.
  intros Hnone. split; [|done]. unfold bind.
  rewrite add_accounts_to_locations_eq, Hnone. cbn [length].
  rewrite decide_True by lia. unfold startup.
  erewrite bind_Raise by (now apply check_locations_abort).
  cbn [heap signals locations config trace take].
  unfold bind_heap. rewrite !zip_with_nil_r. cbn [foldl].
  rewrite app_nil_r, <- app_assoc.
  destruct (locations st) as [|l ls]; cbn [length].
  - rewrite decide_False by lia. now rewrite decide_True by done.
  - rewrite decide_True by lia. now rewrite decide_False by done.
Qed.

(** ** Start-up *)

(** X16: asking for only the server and for no server at once ends in
    [NameError]: [search_thread] is bound only where a search thread is
    made, and line 172 reads it.  By then the database is set up and the
    pause signal handed to the control surface, but no thread was made
    and the server does not run. *)
Theorem only_server_without_server w args st :
  locations st <> [] -> only_server args = true -> no_server args = true ->
  exists st' evs,
    startup w args st = Raise (NameError "search_thread") st' /\
    trace st' = trace st ++ evs /\
    Forall (fun ev => is_thread_event ev = false) evs /\
    Forall (fun ev => is_app_run ev = false) evs /\
    last evs = Some (SetSearchControl (length (signals st))).
Proof.
  intros H Hos Hns. rewrite startup_eq by done. rewrite Hos, Hns.
  cbn [andb]. eexists _, _. split; [reflexivity|].
  cbn [trace]. split; [reflexivity|].
  unfold startup_events, search_events, search_thread_of, serve_events.
  rewrite Hos, Hns. cbn [app]. split; [|split].
  - each_startup_event by_evaluation.
  - each_startup_event by_evaluation.
  - rewrite !last_app. now destruct (cors args).
Qed.

(** X17: what start-up does to the database.  [create_tables] is called
    exactly once; data is deleted only with [clear_db], just before
    that call: by [drop_tables] when the database type is [mysql],
    otherwise by [os.remove(args.db)], and only if that file exists. *)
Theorem database_cleared_only_on_request w args st :
  locations st <> [] ->
  exists pre post,
    trace (final (startup w args st)) =
      trace st ++ pre ++ cleared w args ++ [CreateTables] ++ post /\
    Forall (fun ev => is_destructive ev = false) (pre ++ post) /\
    Forall (fun ev => is_create_tables ev = false) (pre ++ post).
Proof.
  intros H. rewrite startup_final by done. cbn [trace].
  exists (announce_events args ++ [NewPogom; InitDatabase] ++
          (if clear_db args then [Log INFO "Clearing database"] else [])),
         ([SetLocations (locations st); NewEvent (length (signals st));
           EventClear (length (signals st))] ++
          search_events w args (locations st) (length (signals st)) ++
          serve_events w args (length (signals st))
            (search_thread_of w args (locations st) (length (signals st)))).
  split; [|split].
  - unfold startup_events, database_events, cleared.
    destruct (clear_db args); rewrite <- ?app_assoc; reflexivity.
  - unfold search_events, search_thread_of.
    destruct (locations st); [done|]. each_startup_event by_evaluation.
  - unfold search_events, search_thread_of.
    destruct (locations st); [done|]. each_startup_event by_evaluation.
Qed.

(** X18: start-up starts at most one thread.  With [only_server] none is
    started; otherwise exactly one, a daemon named [search_thread],
    which runs [fake_search_loop] without arguments in a mock search
    and [search_overseer_thread] with the arguments, the locations, the
    pause signal and the library path otherwise. *)
Theorem at_most_one_thread w args st :
  locations st <> [] ->
  exists evs,
    trace (final (startup w args st)) = trace st ++ evs /\
    List.filter is_thread_start evs =
      if only_server args then []
      else [ThreadStart
              (Build_Thread
                 (if mock args then fake_search_loop
                  else search_overseer_thread)
                 (if mock args then []
                  else [VArgs; VLocations (locations st);
                        VEvent (length (signals st));
                        VStr (get_encryption_lib_path w)])
                 true (Some "search_thread"))].
Proof.
  intros H. rewrite startup_final by done. cbn [trace].
  eexists. split; [reflexivity|]. unfold startup_events.
  rewrite !List.filter_app.
  rewrite (filter_none _ (announce_events args))
    by (each_startup_event by_evaluation).
  rewrite (filter_none _ (database_events w args))
    by (each_startup_event by_evaluation).
  rewrite (filter_none _ (serve_events _ _ _ _)).
  - unfold search_events. destruct (locations st); [done|].
    now destruct (only_server args), (mock args).
  - unfold search_thread_of.
    destruct (only_server args), (mock args);
      each_startup_event by_evaluation.
Qed.

(** X19: the web server runs last, and only when asked for.  Without
    [no_server], start-up returns with [app.run(threaded=True,
    use_reloader=False, debug, host, port)] as its last call, after the
    pause signal went to the control surface; with [no_server],
    [app.run] is never called. *)
Theorem server_runs_last w args st :
  locations st <> [] ->
  exists evs,
    trace (final (startup w args st)) = trace st ++ evs /\
    if no_server args then Forall (fun ev => is_app_run ev = false) evs
    else
      startup w args st = Ok tt (final (startup w args st)) /\
      exists pre,
        evs = pre ++ [AppRun (debug args) (host args) (port args)] /\
        Forall (fun ev => is_app_run ev = false) pre /\
        SetSearchControl (length (signals st)) ∈ pre.
Proof.
  intros H. rewrite startup_eq by done.
  destruct (no_server args) eqn:Hns; cbn [andb].
  - eexists. split; [now destruct (only_server args)|].
    unfold startup_events, search_events, search_thread_of, serve_events.
    rewrite Hns. destruct (locations st); [done|].
    destruct (only_server args), (mock args);
      each_startup_event by_evaluation.
  - cbn [final trace]. eexists. split; [reflexivity|]. split; [done|].
    exists (announce_events args ++ database_events w args ++
            [SetLocations (locations st); NewEvent (length (signals st));
             EventClear (length (signals st))] ++
            search_events w args (locations st) (length (signals st)) ++
            (if cors args then [Cors] else []) ++
            [InitCacheBusting; SetSearchControl (length (signals st))]).
    split; [|split].
    + unfold startup_events, serve_events. rewrite Hns.
      now rewrite <- !app_assoc.
    + unfold search_events. destruct (locations st); [done|].
      destruct (only_server args), (mock args);
        each_startup_event by_evaluation.
    + set_solver.
Qed.

(** X20: start-up leaves the locations alone.  The location objects, the
    list [locations] and the flags of the signals that existed are as
    binding left them; one signal is added, not set; and of [config]
    only [LOCALE], [CHINA], [ROOT_PATH] and [GMAPS_KEY] are written. *)
Theorem startup_frame w args st :
  locations st <> [] ->
  let st' := final (startup w args st) in
  heap st' = heap st /\
  locations st' = locations st /\
  signals st' = signals st ++ [false] /\
  config st' !! "LOCALE" = Some (CStr (locale args)) /\
  config st' !! "CHINA" = Some (CBool (china args)) /\
  config st' !! "ROOT_PATH" = Some (CStr (root_path w)) /\
  config st' !! "GMAPS_KEY" = Some (CStr (gmaps_key args)) /\
  forall key,
    key ∉ ["LOCALE"; "CHINA"; "ROOT_PATH"; "GMAPS_KEY"] ->
    config st' !! key = config st !! key.
Proof.
  intros H st'. subst st'. rewrite startup_final by done.
  cbn [heap locations signals config]. unfold startup_config.
  repeat split;
    try (repeat (first [ by rewrite lookup_insert_eq
                       | rewrite lookup_insert_ne by done ])).
  intros key Hkey. rewrite !lookup_insert_ne; [done|..];
    intros <-; apply Hkey; set_solver.
Qed.

(** ** The whole script *)

(** The script from its first line to its last, when [PogoWorker] is
    bound, the geocoder answers and there are accounts, but not more
    than location elements. *)
Lemma main_eq globals w args st :
  "PogoWorker" ∈ globals ->
  get_encryption_lib_path w <> "" ->
  no_server args = true \/ static_dist_exists w = true ->
  (forall x, x ∈ split_on "|" (location args) -> prog_match x = None ->
             is_Some (get_pos_by_name w (location args))) ->
  accounts args <> [] ->
  length (accounts args) <= S (count_char "|" (location args)) ->
  exists pws evs,
    length pws = S (count_char "|" (location args)) /\
    Forall (fun pw => account pw = None) pws /\
    main globals w args st =
    (if no_server args && only_server args
     then Raise (NameError "search_thread") else Ok tt)
      (State
         (bind_heap
            (seq (length (heap st)) (S (count_char "|" (location args))))
            (accounts args) (heap st ++ pws))
         (signals st ++ [false])
         (seq (length (heap st)) (length (accounts args)))
         (startup_config w args (prologue_config args (config st)))
         (trace st ++ evs)).
Proof.
  intros Hbound Hpath Hassets Hgeo Hacc Hle. unfold main.
  erewrite bind_Ok by (now apply prologue_eq).
  edestruct (parse_locations_ok globals w args) as (pws & Hparse & Hlen & Hpws);
    [done..|].
  erewrite bind_Ok by exact Hparse.
  unfold bind at 1. rewrite add_accounts_to_locations_eq.
  cbn [heap signals locations config trace].
  rewrite length_seq, decide_True by done.
  rewrite take_seq, Nat.min_l by done.
  rewrite startup_eq.
  - cbn [heap signals locations config trace].
    exists pws. eexists. split; [done|]. split; [done|].
    rewrite <- !app_assoc. reflexivity.
  - cbn [locations]. destruct (accounts args); [done|]. discriminate.
Qed.

(** X21: the script as a whole, when nothing is wrong and the server is
    asked for.  With [PogoWorker] bound, the library and the assets
    there, the geocoder answering, and at least one account but not
    more accounts than location elements, the script runs to its end:
    the [i]-th account is bound to the [i]-th location made,
    [locations] holds exactly the locations that got an account, the
    location objects made beyond them have none, and the objects that
    existed before are untouched. *)
Theorem main_binds_accounts_in_order globals w args st :
  "PogoWorker" ∈ globals ->
  get_encryption_lib_path w <> "" ->
  no_server args = false ->
  static_dist_exists w = true ->
  (forall x, x ∈ split_on "|" (location args) -> prog_match x = None ->
             is_Some (get_pos_by_name w (location args))) ->
  accounts args <> [] ->
  length (accounts args) <= S (count_char "|" (location args)) ->
  let h := length (heap st) in
  exists st',
    main globals w args st = Ok tt st' /\
    locations st' = seq h (length (accounts args)) /\
    length (heap st') = h + S (count_char "|" (location args)) /\
    (forall i a, accounts args !! i = Some a ->
       exists pw, heap st' !! (h + i) = Some pw /\ account pw = Some a) /\
    (forall loc pw, h + length (accounts args) <= loc ->
       heap st' !! loc = Some pw -> account pw = None) /\
    (forall loc, loc < h -> heap st' !! loc = heap st !! loc).
Proof.
  intros Hbound Hpath Hserve Hassets Hgeo Hacc Hle h. subst h.
  destruct (main_eq globals w args st) as (pws & evs & Hlen & Hpws & ->);
    [done|done|now right|done..|].
  rewrite Hserve. cbn [andb].
  eexists. split; [reflexivity|]. cbn [heap signals locations config trace].
  split; [done|]. split; [|split; [|split]].
  - rewrite bind_heap_length, length_app. lia.
  - intros i a Ha. apply lookup_lt_Some in Ha as Hi.
    destruct (lookup_lt_is_Some_2 pws i) as [pw Hpw]; [lia|].
    exists (bound_to a pw). split; [|done].
    rewrite (bind_heap_lookup_bound _ _ _ i (length (heap st) + i) a);
      [|apply NoDup_seq|apply lookup_seq_lt; lia|done].
    rewrite lookup_app_r by lia.
    replace (length (heap st) + i - length (heap st)) with i by lia.
    now rewrite Hpw.
  - intros loc pw Hloc Hlook.
    rewrite bind_heap_lookup_other in Hlook.
    + rewrite lookup_app_r in Hlook by lia.
      rewrite Forall_forall in Hpws. apply Hpws.
      now apply list_elem_of_lookup_2 in Hlook.
    + rewrite take_seq. intros Hin%elem_of_seq. lia.
  - intros loc Hloc. rewrite bind_heap_lookup_other.
    + now rewrite lookup_app_l.
    + rewrite take_seq. intros Hin%elem_of_seq. lia.
Qed.

(** X22: what the script leaves in [config].  At the end the seven keys
    hold what the arguments say: the three parse flags are the negated
    [no_...] flags, written before the locations are read and not
    overwritten later; no other key is written. *)
Theorem main_config globals w args st :
  "PogoWorker" ∈ globals ->
  get_encryption_lib_path w <> "" ->
  no_server args = true \/ static_dist_exists w = true ->
  (forall x, x ∈ split_on "|" (location args) -> prog_match x = None ->
             is_Some (get_pos_by_name w (location args))) ->
  accounts args <> [] ->
  length (accounts args) <= S (count_char "|" (location args)) ->
  let c := config (final (main globals w args st)) in
  c !! "parse_pokemon" = Some (CBool (negb (no_pokemon args))) /\
  c !! "parse_pokestops" = Some (CBool (negb (no_pokestops args))) /\
  c !! "parse_gyms" = Some (CBool (negb (no_gyms args))) /\
  c !! "LOCALE" = Some (CStr (locale args)) /\
  c !! "CHINA" = Some (CBool (china args)) /\
  c !! "ROOT_PATH" = Some (CStr (root_path w)) /\
  c !! "GMAPS_KEY" = Some (CStr (gmaps_key args)) /\
  forall key,
    key ∉ ["parse_pokemon"; "parse_pokestops"; "parse_gyms"; "LOCALE";
           "CHINA"; "ROOT_PATH"; "GMAPS_KEY"] ->
    c !! key = config st !! key.
Proof.
  intros Hbound Hpath Hassets Hgeo Hacc Hle c. subst c.
  destruct (main_eq globals w args st) as (pws & evs & _ & _ & ->);
    [done..|].
  assert (Hc : forall (b : bool) e (s : @state Account),
            config (final ((if b then Raise e else Ok tt) s)) = config s)
    by (now intros []).
  rewrite Hc. cbn [config]. unfold startup_config, prologue_config.
  repeat split;
    try (repeat (first [ by rewrite lookup_insert_eq
                       | rewrite lookup_insert_ne by done ])).
  intros key Hkey. rewrite !lookup_insert_ne; [done|..];
    intros <-; apply Hkey; set_solver.
Qed.

(** ** Loading the module *)

(** X23: which [pgoapi] is accepted.  For an installed version that
    parses, loading goes on to the script exactly when the version is
    1.1.7 or later, where a pre-release of 1.1.7 itself (such as
    [1.1.7b2]) counts as earlier; otherwise the critical message is
    logged and loading ends with exit status 1. *)
Theorem pgoapi_must_be_up_to_date inst installed v :
  pgoapi inst = Some (Some installed) ->
  parse_version installed = Some v ->
  let '(major, minor, patch) := version v in
  let accepted :=
    1 < major \/
    (major = 1 /\
     (1 < minor \/
      (minor = 1 /\ (7 < patch \/ (patch = 7 /\ prerelease v = None))))) in
  (accepted ->
   load_module inst = (remove_old_pgoapi inst, None)) /\
  (~ accepted ->
   load_module inst =
     (remove_old_pgoapi inst ++ [not_up_to_date],
      Some (SystemExit (Some 1%Z))) /\
   exit_status (SystemExit (Some 1%Z)) = 1%Z).
Proof.
  intros Hinst Hparse. unfold load_module, check_pgoapi. rewrite Hinst.
  assert (Hsome : String.eqb installed "" = false)
    by (destruct installed; [vm_compute in Hparse; discriminate|reflexivity]).
  rewrite Hsome, Hparse.
  change (parse_version pgoapi_version)
    with (Some (Build_StrictVersion (1, 1, 7) None)).
  destruct v as [[[major minor] patch] pre]. cbn [version prerelease].
  unfold version_ltb. cbn [version prerelease].
  destruct (decide ((major, minor, patch) = (1, 1, 7))) as [[= -> -> ->]|Hne].
  - destruct pre as [p|]; split.
    + intros [?|(_ & [?|(_ & [?|(_ & ?)])])]; [lia..|done].
    + intros _. done.
    + intros _. now rewrite app_nil_r.
    + intros Hn. destruct Hn. right. split; [done|]. right. split; [done|].
      now right.
  - unfold numbers_ltb.
    destruct (major <? 1) eqn:H1; [apply Nat.ltb_lt in H1|
                                   apply Nat.ltb_ge in H1];
      cbn [orb].
    { split; [lia|]. now intros _. }
    destruct (major =? 1) eqn:E1; [apply Nat.eqb_eq in E1 as ->|
                                   apply Nat.eqb_neq in E1]; cbn [andb].
    2:{ split; [intros _; now rewrite app_nil_r|]. intros Hn.
        destruct Hn. lia. }
    destruct (minor <? 1) eqn:H2; [apply Nat.ltb_lt in H2|
                                   apply Nat.ltb_ge in H2]; cbn [orb].
    { split; [lia|]. now intros _. }
    destruct (minor =? 1) eqn:E2; [apply Nat.eqb_eq in E2 as ->|
                                   apply Nat.eqb_neq in E2]; cbn [andb].
    2:{ split; [intros _; now rewrite app_nil_r|]. intros Hn.
        destruct Hn. lia. }
    destruct (patch <? 7) eqn:H3; [apply Nat.ltb_lt in H3|
                                   apply Nat.ltb_ge in H3].
    { split; [lia|]. now intros _. }
    split; [intros _; now rewrite app_nil_r|]. intros Hn. destruct Hn.
    assert (patch <> 7) by congruence. lia.
Qed.

(** X24: loading removes at most one directory, and before it checks
    anything.  Whatever the state of [pgoapi], the calls of loading are
    first those of the removal and then those of the [pgoapi] checks:
    when [pogom/pgoapi] beside the script is a directory, the
    announcement, [shutil.rmtree] on that path and [Done!] come first,
    and otherwise nothing does; the checks that follow only log
    critical messages and decide how loading ends, so the directory is
    removed also when loading then ends because [pgoapi] is missing or
    too old, and nothing else is ever removed. *)
Theorem only_old_pgoapi_is_removed inst :
  let path := path_join (script_dirname inst) "pogom/pgoapi" in
  exists checks,
    (load_module inst).1 =
      (if old_pgoapi_isdir inst
       then [LoadLog INFO
               "I found %s, but its no longer used. Going to remove it..."
               [path];
             Rmtree path;
             LoadLog INFO "Done!" []]
       else []) ++ checks /\
    checks = (check_pgoapi inst).1 /\
    (load_module inst).2 = (check_pgoapi inst).2 /\
    Forall (fun ev => exists msg, ev = LoadLog CRITICAL msg []) checks /\
    List.filter (fun ev => match ev with Rmtree _ => true | _ => false end)
      (load_module inst).1 =
    (if old_pgoapi_isdir inst then [Rmtree path] else []).
Proof.
  intros path. subst path. exists (check_pgoapi inst).1.
  unfold load_module, remove_old_pgoapi, oldpgoapiPath.
  assert (Hchecks : Forall (fun ev => exists msg, ev = LoadLog CRITICAL msg [])
                      (check_pgoapi inst).1).
  { unfold check_pgoapi.
    destruct (pgoapi inst) as [[installed|]|];
      [destruct (String.eqb installed "");
       [|destruct (parse_version installed);
         [destruct (parse_version pgoapi_version);
          [destruct (version_ltb _ _)|]|]]| |];
      cbn [fst]; repeat constructor; eexists; reflexivity. }
  destruct (check_pgoapi inst) as [evs e]. cbn [fst snd] in *.
  split; [reflexivity|]. split; [reflexivity|]. split; [reflexivity|].
  split; [exact Hchecks|].
  rewrite List.filter_app.
  replace (List.filter
             (fun ev => match ev with Rmtree _ => true | _ => false end) evs)
    with (@nil load_event).
  - rewrite app_nil_r. now destruct (old_pgoapi_isdir inst).
  - symmetry. induction Hchecks as [|ev evs' [msg ->] _ IH]; [done|].
    cbn. exact IH.
Qed.

End Properties.

(** * The claims on sample runs *)

(** C1: with one location and two accounts the binding loop binds the
    first account and then raises [IndexError] at [locations[1]]: the
    step does not complete. *)
Theorem spare_account_raises_IndexError :
  exception_of run_with_spare_account =
    Some (IndexError "list index out of range") /\
  List.filter is_binding_event (trace (final run_with_spare_account)) =
    [AddAccount 0 "alice"] /\
  List.filter is_thread_event (trace (final run_with_spare_account)) = [].
Proof. vm_compute. repeat split. Qed.

(** C3: with no account the location is dropped, the error is logged
    and the script leaves by [sys.exit()] before any signal or thread
    is made; but [sys.exit()] has no argument, so the exit status is
    0. *)
Theorem abort_exits_with_status_zero :
  exception_of run_without_accounts = Some (SystemExit None) /\
  exit_status (SystemExit None) = 0%Z /\
  last (trace (final run_without_accounts)) =
    Some (Log ERROR "Could not initialize locations, aborting") /\
  List.filter starts_work (trace (final run_without_accounts)) = [].
Proof. vm_compute. repeat split. Qed.

(** C5 fails as stated: binding one account to two locations changes the
    list [locations] and the first location object. *)
Lemma binding_is_not_pure :
  locations (final (add_accounts_to_locations
                      (sample_args "1.0,2.0|3.0,4.0" ["alice"]
                         false false false) two_locations))
    <> locations two_locations /\
  heap (final (add_accounts_to_locations
                 (sample_args "1.0,2.0|3.0,4.0" ["alice"]
                    false false false) two_locations))
    <> heap two_locations.
Proof. vm_compute. split; discriminate. Qed.

(** C6 on whole runs: in the mock run the one thread started has no
    argument, while the pause signal made and cleared is reference 0,
    and the only call that hands a signal on is [set_search_control];
    in the real run the thread is made and started with that signal
    among its arguments. *)
Lemma mock_thread_is_given_nothing :
  List.filter is_thread_start (trace (final mock_run)) =
    [ThreadStart (Build_Thread fake_search_loop [] true
                    (Some "search_thread"))] /\
  List.filter touches_flag (trace (final mock_run)) =
    [NewEvent 0; EventClear 0] /\
  List.filter (fun ev => negb (bool_decide (signals_given ev = [])))
    (trace (final mock_run)) = [SetSearchControl 0] /\
  List.filter (fun ev => negb (bool_decide (signals_given ev = [])))
    (trace (final real_run)) =
    [NewThread search_overseer_thread
       [VArgs; VLocations [0]; VEvent 0; VStr "libencrypt.so"];
     ThreadStart (Build_Thread search_overseer_thread
                    [VArgs; VLocations [0]; VEvent 0; VStr "libencrypt.so"]
                    true (Some "search_thread"));
     SetSearchControl 0].
Proof. vm_compute. repeat split. Qed.

(** With [only_server] no search is made, mock or not: the run has its
    location bound and returns without a call of [insert_mock_data]. *)
Lemma mock_server_only_inserts_nothing :
  mock (sample_args "1.0,2.0" ["alice"] true true false) = true /\
  exception_of mock_server_only_run = None /\
  locations (final mock_server_only_run) = [0] /\
  count_insert_mock_data (trace (final mock_server_only_run)) = 0.
Proof. vm_compute. repeat split. Qed.

(** * The theorems at sample inputs *)

(** C2 on the argument [-l 1.0,2.0|Paris] in the module's own
    namespace. *)
Lemma main_raises_NameError_witness :
  get_encryption_lib_path sample_world <> "" /\
  static_dist_exists sample_world = true /\
  exception_of (main module_globals sample_world
                  (sample_args "1.0,2.0|Paris" ["alice"] false false false)
                  initial_state) = Some (NameError "PogoWorker").
Proof.
  split; [discriminate|]. split; [reflexivity|].
  destruct (main_raises_NameError sample_world
              (sample_args "1.0,2.0|Paris" ["alice"] false false false)
              initial_state) as [_ (st' & evs & Hmain & _)].
  - discriminate.
  - right. reflexivity.
  - now rewrite Hmain.
Defined.

(** C4 on two locations and one account: the second location goes. *)
Lemma fewer_accounts_drop_trailing_locations_witness :
  length ["alice"] < length (locations two_locations) /\
  NoDup (locations two_locations) /\
  exists st',
    add_accounts_to_locations
      (sample_args "1.0,2.0|3.0,4.0" ["alice"] false false false)
      two_locations = Ok tt st' /\
    locations st' = [0] /\
    heap st' !! 1 = heap two_locations !! 1.
Proof.
  assert (Hlt : length ["alice"] < length (locations two_locations))
    by (cbn; lia).
  assert (Hnd : NoDup (locations two_locations))
    by (apply NoDup_cons_2; [set_solver|apply NoDup_singleton]).
  split; [exact Hlt|]. split; [exact Hnd|].
  destruct (fewer_accounts_drop_trailing_locations
              (sample_args "1.0,2.0|3.0,4.0" ["alice"] false false false)
              two_locations Hlt Hnd)
    as (st' & Hrun & Hloc & _ & Hdropped & _).
  exists st'. split; [exact Hrun|]. split; [exact Hloc|].
  apply Hdropped. cbn. set_solver.
Defined.

(** C5 as amended, on two locations and one account. *)
Lemma binding_mutates_in_place_witness :
  NoDup (locations two_locations) /\
  locations (final (add_accounts_to_locations
                      (sample_args "1.0,2.0|3.0,4.0" ["alice"]
                         false false false) two_locations)) = [0] /\
  signals (final (add_accounts_to_locations
                    (sample_args "1.0,2.0|3.0,4.0" ["alice"]
                       false false false) two_locations)) = [].
Proof.
  assert (Hnd : NoDup (locations two_locations))
    by (apply NoDup_cons_2; [set_solver|apply NoDup_singleton]).
  split; [exact Hnd|].
  pose proof (binding_mutates_in_place
                (sample_args "1.0,2.0|3.0,4.0" ["alice"] false false false)
                two_locations Hnd) as H.
  cbv zeta in H. destruct H as (Hloc & _ & _ & _ & Hsig & _).
  split; [exact Hloc | exact Hsig].
Defined.

(** C6 on a mock start-up with one location. *)
Lemma fake_search_loop_gets_no_signal_witness :
  locations one_location <> [] /\
  exists pre mid post t,
    trace (final (startup sample_world
                    (sample_args "1.0,2.0" ["alice"] false true false)
                    one_location)) =
      trace one_location ++ pre ++ [NewEvent 0; EventClear 0] ++ mid ++
      [ThreadStart t] ++ post /\
    thread_target t = fake_search_loop /\
    thread_args t = [] /\
    SetSearchControl 0 ∈ post.
Proof.
  split; [discriminate|].
  pose proof (fake_search_loop_gets_no_signal sample_world
                (sample_args "1.0,2.0" ["alice"] false true false)
                one_location) as H.
  cbv zeta in H.
  destruct H as (_ & pre & mid & post & t & Htrace & Htarget & Hargs & _ & _ &
                 Hctl & _);
    [discriminate | reflexivity | reflexivity |].
  exists pre, mid, post, t. now repeat split.
Defined.

(** C7 on a mock start-up with one location. *)
Lemma mock_inserts_once_witness :
  locations one_location = [0] /\
  exists pre post,
    trace (final (startup sample_world
                    (sample_args "1.0,2.0" ["alice"] false true false)
                    one_location)) =
      trace one_location ++ pre ++
      [InsertMockData 0; NewThread fake_search_loop [];
       ThreadStart (started fake_search_loop [])] ++ post /\
    count_insert_mock_data (pre ++ [InsertMockData 0] ++ post) = 1.
Proof.
  split; [reflexivity|].
  destruct (mock_inserts_once sample_world
              (sample_args "1.0,2.0" ["alice"] false true false)
              one_location 0 [])
    as (pre & post & Htrace & _ & _ & Hcount);
    [reflexivity | reflexivity | reflexivity |].
  exists pre, post. now split.
Defined.

(** C8 on a real start-up with one location. *)
Lemma pause_signal_is_shared_witness :
  locations one_location <> [] /\
  signals (final (startup sample_world
                    (sample_args "1.0,2.0" ["alice"] false false false)
                    one_location)) = [false] /\
  exists pre mid post t,
    trace (final (startup sample_world
                    (sample_args "1.0,2.0" ["alice"] false false false)
                    one_location)) =
      trace one_location ++
      pre ++ [NewEvent 0] ++ mid ++ [ThreadStart t] ++ post /\
    VEvent 0 ∈ thread_args t /\
    SetSearchControl 0 ∈ post.
Proof.
  split; [discriminate|].
  pose proof (pause_signal_is_shared sample_world
                (sample_args "1.0,2.0" ["alice"] false false false)
                one_location) as H.
  cbv zeta in H.
  destruct H as (Hsig & pre & mid & post & t & Htrace & _ & _ & _ & _ &
                 Hthread & Hctl & _);
    [discriminate | reflexivity | reflexivity |].
  split; [exact Hsig|].
  exists pre, mid, post, t. now repeat split.
Defined.

(** C9 on the argument [-l Paris|Rome], at the element [Rome]. *)
Lemma lookup_uses_whole_argument_witness :
  "PogoWorker" ∈ globals_with_PogoWorker /\
  prog_match "Rome" = None /\
  trace (final (parse_location globals_with_PogoWorker sample_world
                  (sample_args "Paris|Rome" ["alice"] false false false)
                  "Rome" initial_state)) =
    [Log DEBUG "Looking up coordinates in API"; GetPosByName "Paris|Rome"].
Proof.
  assert (Hbound : "PogoWorker" ∈ globals_with_PogoWorker)
    by (apply elem_of_union_l, elem_of_singleton; reflexivity).
  assert (Hno : prog_match "Rome" = None) by (vm_compute; reflexivity).
  split; [exact Hbound|]. split; [exact Hno|].
  destruct (lookup_uses_whole_argument globals_with_PogoWorker sample_world
              (sample_args "Paris|Rome" ["alice"] false false false)
              "Rome" initial_state (488566 # 10000, 23522 # 10000, 0)%Q
              Hbound Hno eq_refl) as [Hround _].
  now rewrite Hround.
Defined.


(** * The further properties at sample inputs *)

Lemma prog_match_decimal_pair_witness :
  prog_match "1.5, -2.25" = Some ("1.5", "-2.25") /\
  decimal "1.5" /\ decimal "-2.25".
Proof.
  assert (H : prog_match "1.5, -2.25" = Some ("1.5", "-2.25"))
    by (vm_compute; reflexivity).
  split; [exact H|].
  destruct (prog_match_decimal_pair _ _ _ H) as (H1 & H2 & _).
  split; [exact H1 | exact H2].
Defined.

Lemma decimal_pair_matches_witness :
  decimal "48.85" /\ decimal "-2.35" /\
  prog_match "48.85, -2.35" = Some ("48.85", "-2.35").
Proof.
  assert (H1 : decimal "48.85") by (apply (Decimal false "48" "85"); done).
  assert (H2 : decimal "-2.35") by (apply (Decimal true "2" "35"); done).
  split; [exact H1|]. split; [exact H2|].
  exact (decimal_pair_matches "48.85" ", " "-2.35" "" H1 H2
           eq_refl eq_refl eq_refl).
Defined.

Lemma glued_numbers_split_at_last_digit_witness :
  decimal "1.23" /\ prog_match "1.234.5" = Some ("1.23", "4.5").
Proof.
  assert (H1 : decimal "1.23") by (apply (Decimal false "1" "23"); done).
  split; [exact H1|].
  apply (glued_numbers_split_at_last_digit "1.23" "4" "5" ""); done.
Defined.

Lemma few_points_no_match_witness :
  count_char "." "48,2" < 2 /\ prog_match "48,2" = None.
Proof.
  assert (H : count_char "." "48,2" < 2) by (cbn; lia).
  split; [exact H|]. exact (few_points_no_match "48,2" H).
Defined.

Lemma join_split_on_witness :
  split_on "|" (join "|" ["1.0,2.0"; "Paris"]) = ["1.0,2.0"; "Paris"].
Proof.
  apply (join_split_on "|" ["1.0,2.0"; "Paris"]); [discriminate|].
  repeat constructor.
Defined.

Lemma coordinates_are_used_directly_witness :
  prog_match "1.5, -2.25" = Some ("1.5", "-2.25") /\
  exception_of (parse_location globals_with_PogoWorker sample_world
                  (sample_args "1.5, -2.25" ["alice"] false false false)
                  "1.5, -2.25" initial_state) = None.
Proof.
  assert (H : prog_match "1.5, -2.25" = Some ("1.5", "-2.25"))
    by (vm_compute; reflexivity).
  split; [exact H|].
  destruct (coordinates_are_used_directly globals_with_PogoWorker
              sample_world
              (sample_args "1.5, -2.25" ["alice"] false false false)
              "1.5, -2.25" "1.5" "-2.25" initial_state)
    as (qlat & qlng & _ & _ & ->); [|exact H|reflexivity].
  apply elem_of_union_l, elem_of_singleton; reflexivity.
Defined.


Lemma one_lookup_per_place_name_witness :
  exists evs,
    trace (final (parse_locations globals_with_PogoWorker sample_world
                    (sample_args "1.0,2.0|Paris|Rome" ["alice"]
                       false false false) initial_state)) = evs /\
    List.filter is_lookup evs =
      [GetPosByName "1.0,2.0|Paris|Rome"; GetPosByName "1.0,2.0|Paris|Rome"].
Proof.
  destruct (one_lookup_per_place_name globals_with_PogoWorker sample_world
              (sample_args "1.0,2.0|Paris|Rome" ["alice"] false false false)
              initial_state) as (evs & Htrace & Hlookups).
  - apply elem_of_union_l, elem_of_singleton; reflexivity.
  - intros x _ _. now eexists.
  - exists evs. split; [exact Htrace|]. rewrite Hlookups. reflexivity.
Defined.


Lemma missing_encryption_library_exits_witness :
  get_encryption_lib_path world_without_library = "" /\
  exception_of (main module_globals world_without_library
                  (sample_args "1.0,2.0" ["alice"] false false false)
                  initial_state) = Some (SystemExit (Some 1%Z)).
Proof.
  split; [reflexivity|].
  destruct (missing_encryption_library_exits world_without_library
              (sample_args "1.0,2.0" ["alice"] false false false)
              module_globals initial_state eq_refl) as [-> _].
  reflexivity.
Defined.

Lemma missing_assets_exit_with_status_zero_witness :
  static_dist_exists unbuilt_world = false /\
  exception_of (main module_globals unbuilt_world
                  (sample_args "1.0,2.0" ["alice"] false false false)
                  initial_state) = Some (SystemExit None).
Proof.
  split; [reflexivity|].
  destruct (missing_assets_exit_with_status_zero unbuilt_world
              (sample_args "1.0,2.0" ["alice"] false false false)
              module_globals initial_state) as [-> _];
    [discriminate | reflexivity | reflexivity |].
  reflexivity.
Defined.

Lemma debug_leaves_pgoapi_levels_witness :
  debug debug_args = true /\
  logger_level "pgoapi.pgoapi"
    (trace (final (prologue sample_world debug_args initial_state))) =
    Some WARNING /\
  logger_level "pgoapi"
    (trace (final (prologue sample_world debug_args initial_state))) =
    Some DEBUG.
Proof.
  split; [reflexivity|].
  pose proof (debug_leaves_pgoapi_levels sample_world debug_args
                initial_state) as H.
  cbv zeta in H.
  destruct H as (_ & _ & _ & _ & Hpgoapi & _ & Hdebug);
    [discriminate | right; reflexivity |].
  split; [exact Hpgoapi|]. now destruct (Hdebug eq_refl).
Defined.

Lemma more_accounts_than_locations_witness :
  length (locations one_location) < length ["alice"; "bob"] /\
  exception_of (add_accounts_to_locations
                  (sample_args "1.0,2.0" ["alice"; "bob"] false false false)
                  one_location) =
    Some (IndexError "list index out of range").
Proof.
  assert (Hlt : length (locations one_location) < length ["alice"; "bob"])
    by (cbn; lia).
  split; [exact Hlt|].
  destruct (more_accounts_than_locations sample_world
              (sample_args "1.0,2.0" ["alice"; "bob"] false false false)
              one_location Hlt) as (st' & -> & _).
  reflexivity.
Defined.

Lemma no_accounts_no_start_witness :
  exception_of
    (bind (add_accounts_to_locations
             (sample_args "1.0,2.0|3.0,4.0" [] false false false))
       (fun _ => startup sample_world
                   (sample_args "1.0,2.0|3.0,4.0" [] false false false))
       two_locations) = Some (SystemExit None).
Proof.
  destruct (no_accounts_no_start sample_world
              (sample_args "1.0,2.0|3.0,4.0" [] false false false)
              two_locations eq_refl) as [-> _].
  reflexivity.
Defined.

Lemma only_server_without_server_witness :
  locations one_location <> [] /\
  exception_of (startup sample_world
                  (sample_args "1.0,2.0" ["alice"] true false true)
                  one_location) = Some (NameError "search_thread").
Proof.
  split; [discriminate|].
  destruct (only_server_without_server sample_world
              (sample_args "1.0,2.0" ["alice"] true false true)
              one_location) as (st' & evs & -> & _);
    [discriminate | reflexivity | reflexivity |].
  reflexivity.
Defined.

Lemma database_cleared_only_on_request_witness :
  locations one_location <> [] /\
  exists pre post,
    trace (final (startup sample_world debug_args one_location)) =
    trace one_location ++ pre ++ [DropTables] ++ [CreateTables] ++ post.
Proof.
  split; [discriminate|].
  destruct (database_cleared_only_on_request sample_world debug_args
              one_location) as (pre & post & Htrace & _); [discriminate|].
  now exists pre, post.
Defined.

Lemma at_most_one_thread_witness :
  locations one_location <> [] /\
  exists evs,
    trace (final (startup sample_world
                    (sample_args "1.0,2.0" ["alice"] true false false)
                    one_location)) = trace one_location ++ evs /\
    List.filter is_thread_start evs = [].
Proof.
  split; [discriminate|].
  destruct (at_most_one_thread sample_world
              (sample_args "1.0,2.0" ["alice"] true false false)
              one_location) as (evs & Htrace & Hthreads); [discriminate|].
  now exists evs.
Defined.

Lemma server_runs_last_witness :
  locations one_location <> [] /\
  exists pre,
    trace (final (startup sample_world
                    (sample_args "1.0,2.0" ["alice"] false false false)
                    one_location)) =
    trace one_location ++ pre ++ [AppRun false "127.0.0.1" 5000].
Proof.
  split; [discriminate|].
  destruct (server_runs_last sample_world
              (sample_args "1.0,2.0" ["alice"] false false false)
              one_location) as (evs & Htrace & Hlast); [discriminate|].
  cbn [no_server sample_args] in Hlast.
  destruct Hlast as (_ & pre & -> & _). now exists pre.
Defined.

Lemma startup_frame_witness :
  locations one_location <> [] /\
  heap (final (startup sample_world
                 (sample_args "1.0,2.0" ["alice"] false false false)
                 one_location)) = heap one_location /\
  signals (final (startup sample_world
                    (sample_args "1.0,2.0" ["alice"] false false false)
                    one_location)) = [false].
Proof.
  split; [discriminate|].
  pose proof (startup_frame sample_world
                (sample_args "1.0,2.0" ["alice"] false false false)
                one_location) as H.
  cbv zeta in H. destruct H as (Hheap & _ & Hsignals & _); [discriminate|].
  split; [exact Hheap | exact Hsignals].
Defined.

Lemma main_binds_accounts_in_order_witness :
  exists st',
    main globals_with_PogoWorker sample_world
      (sample_args "1.0,2.0|Paris" ["alice"] false false false)
      initial_state = Ok tt st' /\
    locations st' = [0] /\
    exists pw, heap st' !! 0 = Some pw /\ account pw = Some "alice".
Proof.
  pose proof (main_binds_accounts_in_order globals_with_PogoWorker
                sample_world
                (sample_args "1.0,2.0|Paris" ["alice"] false false false)
                initial_state) as H.
  cbv zeta in H.
  destruct H as (st' & Hrun & Hloc & _ & Hbound & _).
  - apply elem_of_union_l, elem_of_singleton; reflexivity.
  - discriminate.
  - reflexivity.
  - reflexivity.
  - intros x _ _. now eexists.
  - discriminate.
  - cbn. lia.
  - exists st'. split; [exact Hrun|]. split; [exact Hloc|].
    exact (Hbound 0 "alice" eq_refl).
Defined.

Lemma main_config_witness :
  config (final (main globals_with_PogoWorker sample_world
                   (sample_args "1.0,2.0|Paris" ["alice"] false false false)
                   initial_state)) !! "parse_pokemon" = Some (CBool true).
Proof.
  pose proof (main_config globals_with_PogoWorker sample_world
                (sample_args "1.0,2.0|Paris" ["alice"] false false false)
                initial_state) as H.
  cbv zeta in H. destruct H as (Hpokemon & _).
  - apply elem_of_union_l, elem_of_singleton; reflexivity.
  - discriminate.
  - right. reflexivity.
  - intros x _ _. now eexists.
  - discriminate.
  - cbn. lia.
  - exact Hpokemon.
Defined.

Lemma pgoapi_must_be_up_to_date_witness :
  parse_version "1.1.7b2" =
    Some (Build_StrictVersion (1, 1, 7) (Some ("b"%char, 2))) /\
  (load_module sample_install).2 = Some (SystemExit (Some 1%Z)).
Proof.
  split; [reflexivity|].
  pose proof (pgoapi_must_be_up_to_date sample_install "1.1.7b2"
                (Build_StrictVersion (1, 1, 7) (Some ("b"%char, 2)))
                eq_refl eq_refl) as H.
  cbn [version prerelease] in H. destruct H as [_ H].
  destruct H as [-> _]; [|reflexivity].
  intros [H|(_ & [H|(_ & [H|(_ & H)])])]; try lia. discriminate.
Defined.

Lemma only_old_pgoapi_is_removed_witness :
  (load_module sample_install).1 =
    [LoadLog INFO "I found %s, but its no longer used. Going to remove it..."
       ["/srv/pogom/pogom/pgoapi"];
     Rmtree "/srv/pogom/pogom/pgoapi";
     LoadLog INFO "Done!" [];
     not_up_to_date] /\
  (load_module sample_install).2 = Some (SystemExit (Some 1%Z)).
Proof.
  pose proof (only_old_pgoapi_is_removed sample_install) as H.
  cbv zeta in H. destruct H as (checks & Htrace & -> & Hend & _).
  rewrite Htrace, Hend. split; reflexivity.
Defined.
